(** * MovieReviews backend: penalty ledger and token authority

    A shallow embedding of [backend/penalties/schemas.py],
    [backend/penalties/utils.py], [backend/penalties/router.py],
    [backend/reports/utils.py] and of the reset-password handler of
    [backend/authentication/router.py], together with the properties the
    specification states about them.

    Conventions of the embedding.
    - A naive [datetime] is the number of microseconds since
      0001-01-01T00:00:00; [datetime.utcnow()] is an explicit argument of
      every function that reads the clock. Where serving one request reads
      the clock in two functions, each reading is an argument of its own:
      [issue_penalty] has the reading of [calculate_expiry] and the later
      one that stamps [issued_at]; [check_active_penalty] has the reading
      of [get_penalties_for_user] and the later one of [time_remaining].
      The [has_expired] tests of one [get_penalties_for_user] call share
      one reading.
    - The JSON files are the two fields of [State]; a function that loads,
      mutates and saves a collection is a computation in the monad [M], which
      threads the state and carries Python exceptions as values.
    - [str(uuid.uuid4())] is an explicit argument (the identifier drawn). *)

From Stdlib Require Import ZArith Lia Ascii String.
From stdpp Require Import base decidable option list strings pretty gmap.

Open Scope string_scope.
Open Scope Z_scope.
Open Scope list_scope.

(** ** Exceptions and outcomes *)

Inductive exn : Type :=
  | OverflowError
  | ValueError
  | TypeError
  | HTTPException (status_code : Z) (detail : string).

Inductive outcome (A : Type) : Type :=
  | Returns (a : A)
  | Raises (e : exn).
Arguments Returns {A} a.
Arguments Raises {A} e.

Definition obind {A B} (x : outcome A) (k : A -> outcome B) : outcome B :=
  match x with
  | Returns a => k a
  | Raises e => Raises e
  end.

(** [try: body except Exception: handler] *)
Definition try_except {A} (body : outcome A) (handler : outcome A) : outcome A :=
  match body with
  | Returns a => Returns a
  | Raises _ => handler
  end.

(** ** Dates

    [datetime] values range over 0001-01-01T00:00:00 .. 9999-12-31T23:59:59.999999,
    [timedelta(days=d)] needs [|d| <= 999999999]; outside, Python raises
    [OverflowError]. *)

Module Time.

Definition us_per_second : Z := 1000000.
Definition us_per_day : Z := 86400 * us_per_second.

(** [date.max.toordinal()] is 3652059. *)
Definition datetime_max : Z := 3652059 * us_per_day - 1.

Definition in_range (t : Z) : bool := (0 <=? t) && (t <=? datetime_max).

(** [timedelta(days=d)], in microseconds *)
Definition timedelta_days (d : Z) : outcome Z :=
  if (Z.abs d <=? 999999999) then Returns (d * us_per_day) else Raises OverflowError.

(** [t + td] on a naive datetime *)
Definition add (t td : Z) : outcome Z :=
  if in_range (t + td) then Returns (t + td) else Raises OverflowError.

(** [t + timedelta(days=d)] *)
Definition plus_days (t d : Z) : outcome Z :=
  obind (timedelta_days d) (add t).

(** What [datetime.fromisoformat] yields: a naive value, or an aware one
    (the string carried a UTC offset). *)
Inductive parsed : Type :=
  | Naive (t : Z)
  | Aware (t : Z) (utcoffset : Z).

(** [utcnow() > other]: comparing a naive with an aware datetime raises. *)
Definition naive_gt (now : Z) (other : parsed) : outcome bool :=
  match other with
  | Naive t => Returns (t <? now)
  | Aware _ _ => Raises TypeError
  end.

(** [other - utcnow()], a timedelta in microseconds *)
Definition sub_naive (other : parsed) (now : Z) : outcome Z :=
  match other with
  | Naive t => Returns (t - now)
  | Aware _ _ => Raises TypeError
  end.

End Time.

(** ** schemas.py: the data model *)

Inductive PenaltyType := review_ban | report_ban | posting_ban | suspension | warning.
Inductive PenaltySeverity := minor | moderate | severe.
Inductive PenaltyStatus := active | resolved | expired.

Global Instance PenaltyType_eq_dec : EqDecision PenaltyType.
Proof. solve_decision. Defined.
Global Instance PenaltySeverity_eq_dec : EqDecision PenaltySeverity.
Proof. solve_decision. Defined.
Global Instance PenaltyStatus_eq_dec : EqDecision PenaltyStatus.
Proof. solve_decision. Defined.

(** The string each [Literal] member is. *)
Definition type_str (t : PenaltyType) : string :=
  match t with
  | review_ban => "review_ban"
  | report_ban => "report_ban"
  | posting_ban => "posting_ban"
  | suspension => "suspension"
  | warning => "warning"
  end.

Definition severity_str (s : PenaltySeverity) : string :=
  match s with
  | minor => "minor"
  | moderate => "moderate"
  | severe => "severe"
  end.

Definition status_str (s : PenaltyStatus) : string :=
  match s with
  | active => "active"
  | resolved => "resolved"
  | expired => "expired"
  end.

(** [class PenaltyCreate(PenaltyBase)] *)
Record PenaltyCreate := mkPenaltyCreate {
  pc_user_id : string;
  pc_type : PenaltyType;
  pc_severity : PenaltySeverity;
  pc_reason : string;
  pc_notes : option string;
  duration_days : option Z
}.

(** [class Penalty(PenaltyBase)] *)
Record Penalty := mkPenalty {
  user_id : string;
  type : PenaltyType;
  severity : PenaltySeverity;
  reason : string;
  notes : option string;
  penalty_id : string;
  issued_by : string;
  issued_at : string;
  expires_at : option string;
  status : PenaltyStatus
}.

Definition set_status (st : PenaltyStatus) (p : Penalty) : Penalty :=
  mkPenalty (user_id p) (type p) (severity p) (reason p) (notes p)
            (penalty_id p) (issued_by p) (issued_at p) (expires_at p) st.

Definition set_notes (n : option string) (p : Penalty) : Penalty :=
  mkPenalty (user_id p) (type p) (severity p) (reason p) n
            (penalty_id p) (issued_by p) (issued_at p) (expires_at p) (status p).

Section Schemas.

(** [datetime.isoformat] and [datetime.fromisoformat], the latter raising
    [ValueError] on a string it does not accept. *)
Variable isoformat : Z -> string.
Variable fromisoformat : string -> outcome Time.parsed.

(** The [try] block of [Penalty.has_expired]:
    [datetime.utcnow() > datetime.fromisoformat(self.expires_at)] *)
Definition has_expired_try (now : Z) (s : string) : outcome bool :=
  obind (fromisoformat s) (Time.naive_gt now).

(** [Penalty.has_expired]; [not self.expires_at] holds of [None] and of
    the empty string. *)
Definition has_expired (now : Z) (p : Penalty) : outcome bool :=
  match expires_at p with
  | None => Returns false
  | Some s =>
      if bool_decide (s = "") then Returns false
      else try_except (has_expired_try now s) (Returns false)
  end.

(** The [try] block of [Penalty.time_remaining]; [remaining] is a
    timedelta in microseconds, [remaining.days] and [remaining.seconds]
    its normalised components. *)
Definition time_remaining_try (now : Z) (s : string) : outcome (option string) :=
  obind (fromisoformat s) (fun exp =>
  obind (Time.sub_naive exp now) (fun remaining =>
    if remaining <=? 0 then Returns (Some "Expired")
    else
      let days := remaining `div` Time.us_per_day in
      let seconds := (remaining `mod` Time.us_per_day) `div` Time.us_per_second in
      let hours := seconds `div` 3600 in
      let minutes := (seconds `mod` 3600) `div` 60 in
      if 0 <? days then
        Returns (Some (pretty days +:+ "d " +:+ pretty hours +:+ "h remaining"))
      else if 0 <? hours then
        Returns (Some (pretty hours +:+ "h " +:+ pretty minutes +:+ "m remaining"))
      else
        Returns (Some (pretty minutes +:+ "m remaining")))).

(** [Penalty.time_remaining] *)
Definition time_remaining (now : Z) (p : Penalty) : outcome (option string) :=
  match expires_at p with
  | None => Returns None
  | Some s =>
      if bool_decide (s = "") then Returns None
      else try_except (time_remaining_try now s) (Returns None)
  end.

(** [calculate_expiry], [now] being its [datetime.utcnow()] *)
Definition calculate_expiry (now : Z) (p_type severity : string)
    (duration_days : option Z) : outcome (option string) :=
  let after d := obind (Time.plus_days now d) (fun t => Returns (Some (isoformat t))) in
  let defaults :=
    if bool_decide (p_type = "warning") then Returns None
    else if bool_decide (severity = "minor") then after 3
    else if bool_decide (severity = "moderate") then after 7
    else if bool_decide (severity = "severe") then
           if bool_decide (p_type = "suspension") then after 30 else after 14
    else after 7 in
  match duration_days with
  | Some d => if negb (d =? 0) && (0 <? d) then after d else defaults
  | None => defaults
  end.

End Schemas.

(** ** utils.py: the two JSON collections *)

(** A row of [penalties.json]: the keys of [Penalty.dict()], and the two
    keys [resolve_penalty] adds. *)
Record Row := mkRow {
  row : Penalty;
  resolved_by : option string;
  resolved_at : option string
}.

(** [penalty.dict()] *)
Definition dict (p : Penalty) : Row := mkRow p None None.

(** A user record of [users_active.json], with the two keys the penalty
    code reads; [u_penalties = None] is a record without the key
    ["penalties"]. *)
Record User := mkUser {
  u_user_id : string;
  u_penalties : option (list string)
}.

Record State := mkState {
  penalties_json : list Row;
  users_active_json : list User
}.

(** Computations over the stored collections: the state survives an
    exception, as a file written before a [raise] does. *)
Definition M (A : Type) : Type := State -> outcome A * State.

Global Instance M_ret : MRet M := fun A a s => (Returns a, s).
Global Instance M_bind : MBind M := fun A B k m s =>
  match m s with
  | (Returns a, s') => k a s'
  | (Raises e, s') => (Raises e, s')
  end.

Definition raise {A} (e : exn) : M A := fun s => (Raises e, s).

Definition _load_penalties : M (list Row) :=
  fun s => (Returns (penalties_json s), s).

Definition _save_penalties (data : list Row) : M unit :=
  fun s => (Returns tt, mkState data (users_active_json s)).

(** Modelled from the spec: [backend/authentication/utils.py] is missing;
    [load_active_users] is the directory's [listAll() -> [Subject]]. *)
Definition load_active_users : M (list User) :=
  fun s => (Returns (users_active_json s), s).

(** Modelled from the spec: [backend/authentication/utils.py] is missing;
    [save_active_users] is the directory's [saveAll([Subject]) -> void], a
    whole-collection replace. *)
Definition save_active_users (users : list User) : M unit :=
  fun s => (Returns tt, mkState (penalties_json s) users).

(** [l.remove(x)]: drops the first occurrence (the callers test [x in l]
    first, so the [ValueError] of an absent [x] is never raised). *)
Fixpoint list_remove (x : string) (l : list string) : list string :=
  match l with
  | [] => []
  | y :: l' => if decide (y = x) then l' else y :: list_remove x l'
  end.

(** [u.setdefault("penalties", []).append(pid)] *)
Definition append_penalty (pid : string) (u : User) : User :=
  mkUser (u_user_id u) (Some (default [] (u_penalties u) ++ [pid])).

(** The loop of [add_penalty] over [users]: [Some users'] when a record
    matched (the list is then saved), [None] when the loop ran out. *)
Fixpoint link_loop (uid pid : string) (users : list User) : option (list User) :=
  match users with
  | [] => None
  | u :: rest =>
      if decide (u_user_id u = uid) then Some (append_penalty pid u :: rest)
      else cons u <$> link_loop uid pid rest
  end.

(** The loop of [_unlink_penalty_from_user]: [Some users'] when an
    identifier was removed (the list is then saved), [None] when the loop
    ran out or broke without a change. *)
Fixpoint unlink_loop (uid pid : string) (users : list User) : option (list User) :=
  match users with
  | [] => None
  | u :: rest =>
      match decide (u_user_id u = uid), u_penalties u with
      | left _, Some ps =>
          if decide (pid ∈ ps)
          then Some (mkUser (u_user_id u) (Some (list_remove pid ps)) :: rest)
          else None
      | _, _ => cons u <$> unlink_loop uid pid rest
      end
  end.

(** [_unlink_penalty_from_user] *)
Definition _unlink_penalty_from_user (uid pid : string) : M unit :=
  users ← load_active_users;
  match unlink_loop uid pid users with
  | Some users' => save_active_users users'
  | None => mret tt
  end.

(** [add_penalty] *)
Definition add_penalty (penalty : Penalty) : M Penalty :=
  data ← _load_penalties;
  _save_penalties (data ++ [dict penalty]);;
  users ← load_active_users;
  match link_loop (user_id penalty) (penalty_id penalty) users with
  | Some users' => save_active_users users'
  | None => mret tt
  end;;
  mret penalty.

(** [stored["status"] = st] *)
Definition row_set_status (st : PenaltyStatus) (r : Row) : Row :=
  mkRow (set_status st (row r)) (resolved_by r) (resolved_at r).

(** The inner loop of [get_penalties_for_user]: every stored row with
    this identifier gets status [expired]. *)
Definition mark_expired (pid : string) (all_penalties : list Row) : list Row :=
  (fun stored =>
     if decide (penalty_id (row stored) = pid) then row_set_status expired stored
     else stored) <$> all_penalties.

(** The first matching row of [resolve_penalty]'s loop is rewritten, the
    loop breaks; the second component is [target_user_id]. *)
Fixpoint resolve_loop (pid moderator_id : string) (notes : option string)
    (stamp : string) (data : list Row) : list Row * option string :=
  match data with
  | [] => ([], None)
  | p :: rest =>
      if decide (penalty_id (row p) = pid) then
        (mkRow (set_notes notes (set_status resolved (row p)))
               (Some moderator_id) (Some stamp) :: rest,
         Some (user_id (row p)))
      else
        let '(rest', target) := resolve_loop pid moderator_id notes stamp rest in
        (p :: rest', target)
  end.

(** The loop of [delete_penalty] that looks the owner up. *)
Fixpoint find_target (pid : string) (data : list Row) : option string :=
  match data with
  | [] => None
  | p :: rest =>
      if decide (penalty_id (row p) = pid) then Some (user_id (row p))
      else find_target pid rest
  end.

(** [if target_user_id:] *)
Definition truthy (o : option string) : bool :=
  match o with
  | None => false
  | Some s => negb (bool_decide (s = ""))
  end.

(** [delete_penalty] of utils.py *)
Definition delete_penalty (pid : string) : M unit :=
  data ← _load_penalties;
  let target_user_id := find_target pid data in
  let updated := filter (fun p => penalty_id (row p) ≠ pid) data in
  _save_penalties updated;;
  match target_user_id with
  | Some uid => if truthy target_user_id then _unlink_penalty_from_user uid pid else mret tt
  | None => mret tt
  end.

Section Utils.

Variable isoformat : Z -> string.
Variable fromisoformat : string -> outcome Time.parsed.

(** The outer loop of [get_penalties_for_user], over the subject's
    [Penalty] objects, with its locals [all_penalties] and [changed]. *)
Fixpoint expire_loop (now : Z) (penalties : list Penalty)
    (all_penalties : list Row) (changed : bool)
    : M (list Penalty * list Row * bool) :=
  match penalties with
  | [] => mret ([], all_penalties, changed)
  | p :: rest =>
      if bool_decide (status p = active) then
        match has_expired fromisoformat now p with
        | Returns true =>
            _unlink_penalty_from_user (user_id p) (penalty_id p);;
            '(rest', all', changed') ←
              expire_loop now rest (mark_expired (penalty_id p) all_penalties) true;
            mret (set_status expired p :: rest', all', changed')
        | Returns false =>
            '(rest', all', changed') ← expire_loop now rest all_penalties changed;
            mret (p :: rest', all', changed')
        | Raises e => raise e
        end
      else
        '(rest', all', changed') ← expire_loop now rest all_penalties changed;
        mret (p :: rest', all', changed')
  end.

(** [get_penalties_for_user] *)
Definition get_penalties_for_user (now : Z) (uid : string) : M (list Penalty) :=
  loaded ← _load_penalties;
  let penalties := row <$> filter (fun p => user_id (row p) = uid) loaded in
  all_penalties ← _load_penalties;
  '(penalties', all', changed) ← expire_loop now penalties all_penalties false;
  (if changed : bool then _save_penalties all' else mret tt);;
  mret penalties'.

(** [resolve_penalty] of utils.py *)
Definition resolve_penalty (now : Z) (pid moderator_id : string)
    (notes : option string) : M unit :=
  data ← _load_penalties;
  let '(data', target_user_id) :=
    resolve_loop pid moderator_id notes (isoformat now) data in
  _save_penalties data';;
  match target_user_id with
  | Some uid => if truthy target_user_id then _unlink_penalty_from_user uid pid else mret tt
  | None => mret tt
  end.

End Utils.

Definition lift {A} (x : outcome A) : M A := fun s => (x, s).

Section Restriction.

Variable fromisoformat : string -> outcome Time.parsed.

(** [p.time_remaining or "Unknown duration"] *)
Definition remaining_or_unknown (tr : option string) : string :=
  match tr with
  | Some s => if bool_decide (s = "") then "Unknown duration" else s
  | None => "Unknown duration"
  end.

(** The f-string of [check_active_penalty]. *)
Definition blocked_message (p : Penalty) (remaining : string) : string :=
  "Action blocked due to active " +:+ type_str (type p) +:+ " (" +:+ reason p
    +:+ ") — " +:+ remaining +:+ ".".

(** The loop of [check_active_penalty], returning at the first hit;
    [later] is the clock reading of the one [p.time_remaining] it
    evaluates. *)
Fixpoint blocked_loop (later : Z) (blocked_types : list string)
    (penalties : list Penalty) : outcome (option string) :=
  match penalties with
  | [] => Returns None
  | p :: rest =>
      if bool_decide (status p = active)
         && bool_decide (type_str (type p) ∈ blocked_types)
      then obind (time_remaining fromisoformat later p) (fun tr =>
             Returns (Some (blocked_message p (remaining_or_unknown tr))))
      else blocked_loop later blocked_types rest
  end.

(** [check_active_penalty]: [now] is the clock reading of
    [get_penalties_for_user], [later] the one [time_remaining] takes
    afterwards for the message. *)
Definition check_active_penalty (now later : Z) (uid : string)
    (blocked_types : list string) : M (option string) :=
  penalties ← get_penalties_for_user fromisoformat now uid;
  lift (blocked_loop later blocked_types penalties).

End Restriction.

(** ** router.py: the endpoints *)

(** What [get_current_user] yields, as far as the handlers read it. *)
Record CurrentUser := mkCurrentUser {
  cu_user_id : string;
  cu_role : string
}.

Module Router.
Section Router.

Variable isoformat : Z -> string.
Variable fromisoformat : string -> outcome Time.parsed.

Definition staff : list string := ["administrator"; "moderator"].

(** [GET /penalties] *)
Definition list_all_penalties (current_user : CurrentUser) : M (list Penalty) :=
  if bool_decide (cu_role current_user ∉ staff)
  then raise (HTTPException 403 "Access denied")
  else data ← _load_penalties; mret (row <$> data).

(** [GET /penalties/me] *)
Definition get_my_penalties (now : Z) (current_user : CurrentUser) : M (list Penalty) :=
  get_penalties_for_user fromisoformat now (cu_user_id current_user).

(** [GET /penalties/{user_id}] *)
Definition get_user_penalties (now : Z) (uid : string)
    (current_user : CurrentUser) : M (list Penalty) :=
  if bool_decide (cu_role current_user ∉ staff)
  then raise (HTTPException 403 "Access denied")
  else get_penalties_for_user fromisoformat now uid.

(** [POST /penalties]; [now] is the clock reading of [calculate_expiry];
    building [schemas.Penalty] afterwards, the default factory of
    [issued_at] reads the clock again, [stamp], and the one of
    [penalty_id] draws [uuid]. *)
Definition issue_penalty (now stamp : Z) (uuid : string) (payload : PenaltyCreate)
    (current_user : CurrentUser) : M Penalty :=
  if bool_decide (cu_role current_user ∉ staff)
  then raise (HTTPException 403 "Access denied")
  else
    expires ← lift (calculate_expiry isoformat now (type_str (pc_type payload))
                      (severity_str (pc_severity payload)) (duration_days payload));
    let full_penalty :=
      mkPenalty (pc_user_id payload) (pc_type payload) (pc_severity payload)
                (pc_reason payload) (pc_notes payload) uuid
                (cu_user_id current_user) (isoformat stamp) expires active in
    add_penalty full_penalty.

(** [PATCH /penalties/{penalty_id}] *)
Definition resolve_penalty (now : Z) (pid : string) (notes : option string)
    (current_user : CurrentUser) : M string :=
  if bool_decide (cu_role current_user ∉ staff)
  then raise (HTTPException 403 "Access denied")
  else
    resolve_penalty isoformat now pid (cu_user_id current_user) notes;;
    mret ("Penalty " +:+ pid +:+ " resolved successfully.").

(** [DELETE /penalties/{penalty_id}] *)
Definition delete_penalty (pid : string) (current_user : CurrentUser) : M string :=
  if bool_decide (cu_role current_user ≠ "administrator")
  then raise (HTTPException 403 "Admins only")
  else
    data ← _load_penalties;
    let updated := filter (fun p => penalty_id (row p) ≠ pid) data in
    if bool_decide (length updated = length data)
    then raise (HTTPException 404 "Penalty not found")
    else
      _save_penalties updated;;
      mret ("Penalty " +:+ pid +:+ " deleted successfully.").

End Router.
End Router.

(** ** The token authority

    [backend/authentication/security.py] is not among the sources; the
    token operations are modelled from the specification (§3, §4.1, §7). *)

Module TokenAuthority.

(** Modelled from the spec: the failures of the token operations of the
    missing [security.py] (§7). *)
Inductive AuthError :=
  | AuthInvalid | AuthExpired | AuthRevoked
  | ResetTokenInvalid | ResetTokenExpired | ResetTokenConsumed.

(** Modelled from the spec: the claims a verified session token yields,
    [{subjectId, role, status, issuedAt, expiresAt}]; the record type of
    the missing [security.py]. *)
Record Claims := mkClaims {
  c_subject : string;
  c_role : string;
  c_status : string;
  c_issued_at : Z;
  c_expires_at : Z
}.

(** Modelled from the spec: a reset token of the missing [security.py],
    [{subject identifier, expiry, consumed flag}]. *)
Record ResetToken := mkResetToken {
  rt_subject : string;
  rt_expires_at : Z;
  rt_consumed : bool
}.

(** Modelled from the spec: the reset-token TTL of the missing
    [security.py], fixed at 10 minutes (in microseconds). *)
Definition reset_ttl : Z := 10 * 60 * Time.us_per_second.

Section Session.

(** The signature and structure check of a token: the claims it
    carries, or nothing. *)
Variable decode : string -> option Claims.

(** Modelled from the spec: [verify] of the missing [security.py];
    structural validity first, then revocation, then expiry. *)
Definition verify (revoked : gset string) (now : Z) (token : string)
    : AuthError + Claims :=
  match decode token with
  | None => inl AuthInvalid
  | Some c =>
      if decide (token ∈ revoked) then inl AuthRevoked
      else if c_expires_at c <? now then inl AuthExpired
      else inr c
  end.

End Session.

(** Modelled from the spec: [revoke] of the missing [security.py]; adds
    the token to the revocation store, nothing is ever removed. *)
Definition revoke (token : string) (revoked : gset string) : gset string :=
  {[ token ]} ∪ revoked.

(** Modelled from the spec: [createResetToken] of the missing
    [security.py]; [token] is the value generated. *)
Definition create_reset_token (token subject : string) (now : Z)
    (store : gmap string ResetToken) : gmap string ResetToken :=
  <[ token := mkResetToken subject (now + reset_ttl) false ]> store.

(** Modelled from the spec: [verifyResetToken] of the missing
    [security.py]; a consumed token fails [Consumed] regardless of its
    expiry, and a success marks the token consumed in the same step. *)
Definition verify_reset_token (store : gmap string ResetToken) (now : Z)
    (token : string) : (AuthError + string) * gmap string ResetToken :=
  match store !! token with
  | None => (inl ResetTokenInvalid, store)
  | Some rt =>
      if rt_consumed rt then (inl ResetTokenConsumed, store)
      else if rt_expires_at rt <? now then (inl ResetTokenExpired, store)
      else (inr (rt_subject rt),
            <[ token := mkResetToken (rt_subject rt) (rt_expires_at rt) true ]> store)
  end.

(** The operations on the reset-token store, and a run of them. *)
Inductive reset_op :=
  | Create (token subject : string) (now : Z)
  | Verify (token : string) (now : Z).

Definition step (op : reset_op) (store : gmap string ResetToken)
    : gmap string ResetToken :=
  match op with
  | Create token subject now => create_reset_token token subject now store
  | Verify token now => snd (verify_reset_token store now token)
  end.

Definition run (ops : list reset_op) (store : gmap string ResetToken)
    : gmap string ResetToken :=
  foldl (fun st op => step op st) store ops.

(** The tokens a run generates. *)
Definition created (ops : list reset_op) : list string :=
  omap (fun op => match op with Create t _ _ => Some t | Verify _ _ => None end) ops.

End TokenAuthority.

(** ** authentication/router.py: confirming a password reset *)

Module AuthRouter.

(** A user record, with the keys [reset_password] reads and writes. *)
Record Account := mkAccount {
  a_user_id : string;
  a_hashed_password : string;
  a_status : string
}.

Record AuthState := mkAuthState {
  reset_tokens : gmap string TokenAuthority.ResetToken;
  users_active : list Account;
  users_inactive : list Account
}.

(** Modelled from the spec: [load_all_users] of the missing
    [backend/authentication/utils.py], the directory's [listAll()]. *)
Definition load_all_users (s : AuthState) : list Account :=
  users_active s ++ users_inactive s.

Section ResetPassword.

(** [security.hash_password], an opaque one-way function. *)
Variable hash_password : string -> string.

(** The loop of [reset_password]: the first record of the subject gets
    the new hash; [None] when [updated] stays [False]. *)
Fixpoint set_password (uid hashed : string) (users : list Account)
    : option (list Account) :=
  match users with
  | [] => None
  | u :: rest =>
      if decide (a_user_id u = uid)
      then Some (mkAccount (a_user_id u) hashed (a_status u) :: rest)
      else cons u <$> set_password uid hashed rest
  end.

(** [POST /auth/password/reset] *)
Definition reset_password (now : Z) (token new_password : string)
    (s : AuthState) : outcome string * AuthState :=
  let '(verdict, tokens') :=
    TokenAuthority.verify_reset_token (reset_tokens s) now token in
  let s' := mkAuthState tokens' (users_active s) (users_inactive s) in
  match verdict with
  | inl _ => (Raises (HTTPException 400 "Invalid or expired token"), s')
  | inr uid =>
      if bool_decide (uid = "")
      then (Raises (HTTPException 400 "Invalid or expired token"), s')
      else
        match set_password uid (hash_password new_password) (load_all_users s') with
        | None => (Raises (HTTPException 404 "User not found"), s')
        | Some users =>
            (Returns "Password successfully reset",
             mkAuthState tokens'
               (filter (fun u => a_status u = "active") users)
               (filter (fun u => a_status u = "inactive") users))
        end
  end.

End ResetPassword.

End AuthRouter.

(** ** A concrete codec

    The properties below hold for every [isoformat] and [fromisoformat];
    this module gives the instance used in the examples: [isoformat] as
    CPython prints a naive datetime, and a [fromisoformat] that accepts
    what [isoformat] prints ([YYYY-MM-DDTHH:MM:SS], optionally followed by
    [.ffffff]) and raises [ValueError] on anything else. *)

Module Iso.

Definition is_leap (y : Z) : bool :=
  (y `mod` 4 =? 0) && (negb (y `mod` 100 =? 0) || (y `mod` 400 =? 0)).

Definition days_before_year (year : Z) : Z :=
  let y := year - 1 in y * 365 + y `div` 4 - y `div` 100 + y `div` 400.

Definition days_in_month (y m : Z) : Z :=
  if m =? 2 then (if is_leap y then 29 else 28)
  else if (m =? 4) || (m =? 6) || (m =? 9) || (m =? 11) then 30 else 31.

Fixpoint days_before_month_aux (y : Z) (k : nat) : Z :=
  match k with
  | O => 0
  | S k' => days_before_month_aux y k' + days_in_month y (Z.of_nat k)
  end.

Definition days_before_month (y m : Z) : Z :=
  days_before_month_aux y (Z.to_nat (m - 1)).

Definition ymd2ord (y m d : Z) : Z :=
  days_before_year y + days_before_month y m + d.

(** The month and day of the [n]-th day (from 0) of year [y]. *)
Fixpoint month_day (y : Z) (n : Z) (m : Z) (fuel : nat) : Z * Z :=
  match fuel with
  | O => (m, n + 1)
  | S fuel' =>
      if n <? days_in_month y m then (m, n + 1)
      else month_day y (n - days_in_month y m) (m + 1) fuel'
  end.

Definition ord2ymd (ordinal : Z) : Z * Z * Z :=
  let n := ordinal - 1 in
  let n400 := n `div` 146097 in let n := n `mod` 146097 in
  let n100 := n `div` 36524 in let n := n `mod` 36524 in
  let n4 := n `div` 1461 in let n := n `mod` 1461 in
  let n1 := n `div` 365 in let n := n `mod` 365 in
  let year := n400 * 400 + 1 + n100 * 100 + n4 * 4 + n1 in
  if (n1 =? 4) || (n100 =? 4) then (year - 1, 12, 31)
  else let '(m, d) := month_day year n 1 11 in (year, m, d).

Fixpoint zeros (k : nat) : string :=
  match k with O => "" | S k' => "0" +:+ zeros k' end.

(** ["%0<w>d" % z] for [0 <= z] *)
Definition pad (w : nat) (z : Z) : string :=
  let digits := pretty z in
  zeros (w - String.length digits) +:+ digits.

Definition isoformat (t : Z) : string :=
  let '(y, m, d) := ord2ymd (t `div` Time.us_per_day + 1) in
  let r := t `mod` Time.us_per_day in
  let secs := r `div` Time.us_per_second in
  let us := r `mod` Time.us_per_second in
  pad 4 y +:+ "-" +:+ pad 2 m +:+ "-" +:+ pad 2 d +:+ "T"
    +:+ pad 2 (secs `div` 3600) +:+ ":" +:+ pad 2 ((secs `mod` 3600) `div` 60)
    +:+ ":" +:+ pad 2 (secs `mod` 60)
    +:+ (if us =? 0 then "" else "." +:+ pad 6 us).

Definition digit (c : ascii) : option Z :=
  let n := Z.of_nat (nat_of_ascii c) in
  if (48 <=? n) && (n <=? 57) then Some (n - 48) else None.

(** [k] leading decimal digits, and the rest of the string. *)
Fixpoint number (k : nat) (acc : Z) (s : string) : option (Z * string) :=
  match k with
  | O => Some (acc, s)
  | S k' =>
      match s with
      | String c s' => d ← digit c; number k' (10 * acc + d) s'
      | EmptyString => None
      end
  end.

Definition expect (c : ascii) (s : string) : option string :=
  match s with
  | String c' s' => if decide (c = c') then Some s' else None
  | EmptyString => None
  end.

Definition parse (s : string) : option Z :=
  '(y, s) ← number 4 0 s; s ← expect "-"%char s;
  '(m, s) ← number 2 0 s; s ← expect "-"%char s;
  '(d, s) ← number 2 0 s; s ← expect "T"%char s;
  '(hh, s) ← number 2 0 s; s ← expect ":"%char s;
  '(mm, s) ← number 2 0 s; s ← expect ":"%char s;
  '(ss, s) ← number 2 0 s;
  '(us, s) ← match s with
             | EmptyString => Some (0, s)
             | _ => s ← expect "."%char s; number 6 0 s
             end;
  guard (s = "");;
  guard (1 <= y <= 9999 ∧ 1 <= m <= 12 ∧ 1 <= d <= days_in_month y m);;
  guard (hh <= 23 ∧ mm <= 59 ∧ ss <= 59);;
  Some ((ymd2ord y m d - 1) * Time.us_per_day
        + ((hh * 60 + mm) * 60 + ss) * Time.us_per_second + us).

Definition fromisoformat (s : string) : outcome Time.parsed :=
  match parse s with
  | Some t => Returns (Time.Naive t)
  | None => Raises ValueError
  end.

End Iso.

(** ** reports/utils.py: the report collection *)

Module Reports.

Inductive ReportStatus := pending | resolved | dismissed.

Global Instance ReportStatus_eq_dec : EqDecision ReportStatus.
Proof. solve_decision. Defined.

(** A row of [reports.json], as [Report.dict()] writes it. *)
Record Report := mkReport {
  id : string;
  reported_item : string;
  type : string;
  reason : string;
  reporter_id : string;
  status : ReportStatus;
  created_at : string
}.

(** [report["status"] = status] *)
Definition set_status (s : ReportStatus) (r : Report) : Report :=
  mkReport (id r) (reported_item r) (type r) (reason r) (reporter_id r) s (created_at r).

(** [create_report], with the identifier [uuid.uuid4()] draws and the
    clock reading: the report returned and the collection saved. *)
Definition create_report (isoformat : Z -> string) (now : Z) (uuid : string)
    (reported_item type reason reporter_id : string) (reports : list Report)
    : Report * list Report :=
  let new_report :=
    mkReport uuid reported_item type reason reporter_id pending (isoformat now) in
  (new_report, reports ++ [new_report]).

(** [get_report]: the first row with the identifier. *)
Fixpoint get_report (report_id : string) (reports : list Report) : option Report :=
  match reports with
  | [] => None
  | report :: rest =>
      if decide (id report = report_id) then Some report else get_report report_id rest
  end.

(** The loop of [update_report_status]: the first row with the identifier
    gets the status, and the list is saved; [None] when the loop runs out. *)
Fixpoint update_loop (report_id : string) (s : ReportStatus) (reports : list Report)
    : option (Report * list Report) :=
  match reports with
  | [] => None
  | report :: rest =>
      if decide (id report = report_id)
      then Some (set_status s report, set_status s report :: rest)
      else (fun '(r, rest') => (r, report :: rest')) <$> update_loop report_id s rest
  end.

(** [update_report_status]: the value returned and the collection left. *)
Definition update_report_status (report_id : string) (s : ReportStatus)
    (reports : list Report) : option Report * list Report :=
  match update_loop report_id s reports with
  | Some (r, saved) => (Some r, saved)
  | None => (None, reports)
  end.

(** [delete_report] *)
Definition delete_report (report_id : string) (reports : list Report)
    : bool * list Report :=
  let updated := filter (fun r => id r ≠ report_id) reports in
  if bool_decide (length updated = length reports) then (false, reports)
  else (true, updated).

(** [filter_reports_by_status] *)
Definition filter_reports_by_status (s : ReportStatus) (reports : list Report)
    : list Report :=
  filter (fun r => status r = s) reports.

End Reports.

(** ** Sample data *)

Module Demo.

(** 2021-07-30T01:02:03.000001 and 2021-12-31T23:59:59 *)
Definition t_issue : Z := 63763203723000001.
Definition t_later : Z := 63776591999000000.

Definition admin : CurrentUser := mkCurrentUser "adm1" "administrator".
Definition moderator : CurrentUser := mkCurrentUser "mod1" "moderator".

(** One registered subject, nothing issued. *)
Definition st0 : State := mkState [] [mkUser "u1" (Some [])].

Definition spam : PenaltyCreate :=
  mkPenaltyCreate "u1" review_ban minor "Spam" None None.

(** The penalty [POST /penalties] of [spam] creates at [t_issue], the
    identifier drawn being ["p1"], and the state it leaves. *)
Definition p1 : Penalty :=
  mkPenalty "u1" review_ban minor "Spam" None "p1" "adm1"
            "2021-07-30T01:02:03.000001" (Some "2021-08-02T01:02:03.000001") active.

Definition st1 : State := mkState [dict p1] [mkUser "u1" (Some ["p1"])].

(** A warning with a five-day override, as issued at [t_issue]. *)
Definition w1 : Penalty :=
  mkPenalty "u1" warning severe "Rude" None "w1" "adm1"
            "2021-07-30T01:02:03.000001" (Some "2021-08-04T01:02:03.000001") active.

(** A row whose [expires_at] is not a timestamp, next to [p1]. *)
Definition odd : Penalty :=
  mkPenalty "u1" posting_ban moderate "Flood" None "p0" "adm1"
            "2021-07-30T01:02:03.000001" (Some "next week") active.

Definition st_odd : State :=
  mkState [dict odd; dict p1] [mkUser "u1" (Some ["p0"; "p1"])].

Definition rude : PenaltyCreate :=
  mkPenaltyCreate "u1" warning severe "Rude" None None.

Definition rude_5_days : PenaltyCreate :=
  mkPenaltyCreate "u1" warning severe "Rude" None (Some 5).

(** A decoder that accepts one session token, valid for 30 minutes. *)
Definition decode (token : string) : option TokenAuthority.Claims :=
  if decide (token = "session.u1")
  then Some (TokenAuthority.mkClaims "u1" "member" "active" t_issue
               (t_issue + 30 * 60 * Time.us_per_second))
  else None.

(** A reset token for ["u1"], generated at [t_issue]. *)
Definition resets : gmap string TokenAuthority.ResetToken :=
  TokenAuthority.create_reset_token "reset.1" "u1" t_issue ∅.

End Demo.

(** ** Vocabulary of the statements *)

(** The identifiers linked to subject [uid]: the ["penalties"] list of the
    first record with that [user_id]; empty when there is no such record
    or the record lacks the key. *)
Definition active_penalty_ids (users : list User) (uid : string) : list string :=
  match List.find (fun u => bool_decide (u_user_id u = uid)) users with
  | Some u => default [] (u_penalties u)
  | None => []
  end.

(** The rows of subject [uid]. *)
Definition rows_of (uid : string) (data : list Row) : list Row :=
  filter (fun p => user_id (row p) = uid) data.

Definition ids (data : list Row) : list string :=
  (fun r => penalty_id (row r)) <$> data.

(** The directory after the linking loop of [add_penalty]. *)
Definition link_users (uid pid : string) (users : list User) : list User :=
  default users (link_loop uid pid users).

(** The directory after [_unlink_penalty_from_user]. *)
Definition unlink_users (uid pid : string) (users : list User) : list User :=
  default users (unlink_loop uid pid users).

(** The stored row after the lazy transition of the identifiers [due]. *)
Definition expire_row (due : list string) (r : Row) : Row :=
  if bool_decide (penalty_id (row r) ∈ due) then row_set_status expired r else r.

Section Vocabulary.

Variable fromisoformat : string -> outcome Time.parsed.

(** [p.status == "active" and p.has_expired()] at time [now] *)
Definition is_due (now : Z) (p : Penalty) : bool :=
  bool_decide (status p = active)
  && match has_expired fromisoformat now p with
     | Returns b => b
     | Raises _ => false
     end.

(** The lazy transition of one penalty, [active -> expired] when due. *)
Definition lapse (now : Z) (p : Penalty) : Penalty :=
  if is_due now p then set_status expired p else p.

(** What the loop of [get_penalties_for_user] leaves in its local
    [all_penalties], and in the user directory. *)
Definition settle_rows (now : Z) (penalties : list Penalty)
    (all_penalties : list Row) : list Row :=
  foldl (fun acc p => if is_due now p then mark_expired (penalty_id p) acc else acc)
        all_penalties penalties.

Definition settle_users (now : Z) (penalties : list Penalty)
    (users : list User) : list User :=
  foldl (fun acc p =>
           if is_due now p then unlink_users (user_id p) (penalty_id p) acc else acc)
        users penalties.

(** The subject's linked identifiers once the due ones are unlinked. *)
Definition drop_due (now : Z) (ps : list Penalty) (linked : list string) : list string :=
  foldl (fun acc p => if is_due now p then list_remove (penalty_id p) acc else acc)
        linked ps.

(** The identifiers of subject [uid]'s rows that are due at [now]. *)
Definition due_ids (now : Z) (uid : string) (data : list Row) : list string :=
  penalty_id <$> filter (fun p => is_due now p) (row <$> rows_of uid data).

(** A sequence of [get_penalties_for_user] calls, each with the time
    it is made at and the subject it is made for. *)
Fixpoint after_reads (calls : list (Z * string)) (st : State) : State :=
  match calls with
  | [] => st
  | (now, uid) :: calls' =>
      after_reads calls' (snd (get_penalties_for_user fromisoformat now uid st))
  end.

End Vocabulary.

(** A stored [expires_at] that is absent, empty, or not accepted by
    [fromisoformat]. *)
Definition unparseable (fromisoformat : string -> outcome Time.parsed)
    (stored : option string) : Prop :=
  match stored with
  | None => True
  | Some s => s = "" ∨ ∃ e, fromisoformat s = Raises e
  end.

(** The link invariant: a stored penalty's identifier is in its subject's
    list exactly when its status is [active]. *)
Definition linked_iff_active (st : State) : Prop :=
  ∀ r, r ∈ penalties_json st ->
       penalty_id (row r) ∈ active_penalty_ids (users_active_json st) (user_id (row r))
       ↔ status (row r) = active.

(** The two collections agree: stored identifiers are distinct, no list
    of linked identifiers repeats one, every row has a subject, a stored
    penalty is linked exactly when active, and every linked identifier is
    that of a stored penalty of the subject. *)
Definition consistent (st : State) : Prop :=
  NoDup (ids (penalties_json st))
  ∧ (∀ uid, NoDup (active_penalty_ids (users_active_json st) uid))
  ∧ (∀ r, r ∈ penalties_json st -> user_id (row r) ≠ "")
  ∧ linked_iff_active st
  ∧ (∀ uid pid, pid ∈ active_penalty_ids (users_active_json st) uid ->
       ∃ r, r ∈ penalties_json st ∧ penalty_id (row r) = pid ∧ user_id (row r) = uid).

(** The subject has a record in the directory. *)
Definition registered (users : list User) (uid : string) : Prop :=
  ∃ u, u ∈ users ∧ u_user_id u = uid.

(** One operation of the ledger as utils.py performs it: issuing under a
    fresh identifier to a registered subject, reading a subject's
    penalties, resolving, deleting. *)
Inductive ledger_step (isoformat : Z -> string)
    (fromisoformat : string -> outcome Time.parsed) : State -> State -> Prop :=
  | step_issue now stamp uuid payload cu st p st' :
      uuid ∉ ids (penalties_json st) ->
      pc_user_id payload ≠ "" ->
      registered (users_active_json st) (pc_user_id payload) ->
      Router.issue_penalty isoformat now stamp uuid payload cu st = (Returns p, st') ->
      ledger_step isoformat fromisoformat st st'
  | step_read now uid st :
      ledger_step isoformat fromisoformat st
        (snd (get_penalties_for_user fromisoformat now uid st))
  | step_resolve now pid moderator_id notes st :
      ledger_step isoformat fromisoformat st
        (snd (resolve_penalty isoformat now pid moderator_id notes st))
  | step_delete pid st :
      ledger_step isoformat fromisoformat st (snd (delete_penalty pid st)).

(** The row [resolve_penalty] writes in place of a row it resolves. *)
Definition resolve_row (moderator_id : string) (notes : option string)
    (stamp : string) (r : Row) : Row :=
  mkRow (set_notes notes (set_status resolved (row r))) (Some moderator_id) (Some stamp).

(** [now + d days] is a datetime Python can build. *)
Definition representable (now d : Z) : Prop :=
  Z.abs d <= 999999999 ∧ 0 <= now + d * Time.us_per_day <= Time.datetime_max.

(** A call of utils.py on the ledger, with the clock reading it is made
    at where the function reads the clock. *)
Inductive ledger_op :=
  | op_add (p : Penalty)
  | op_read (now : Z) (uid : string)
  | op_resolve (now : Z) (pid moderator_id : string) (notes : option string)
  | op_delete (pid : string).

(** The state the call leaves. *)
Definition run_op (isoformat : Z -> string)
    (fromisoformat : string -> outcome Time.parsed) (op : ledger_op) (st : State) : State :=
  match op with
  | op_add p => snd (add_penalty p st)
  | op_read now uid => snd (get_penalties_for_user fromisoformat now uid st)
  | op_resolve now pid moderator_id notes =>
      snd (resolve_penalty isoformat now pid moderator_id notes st)
  | op_delete pid => snd (delete_penalty pid st)
  end.

(** A sequence of calls, first to last. *)
Definition run_ops (isoformat : Z -> string)
    (fromisoformat : string -> outcome Time.parsed) (ops : list ledger_op) (st : State)
    : State :=
  foldl (fun acc op => run_op isoformat fromisoformat op acc) st ops.

(** The fields of a penalty that are set when it is issued. *)
Definition issuance (p : Penalty)
    : string * PenaltyType * PenaltySeverity * string * string * string * string
      * option string :=
  (user_id p, type p, severity p, reason p, penalty_id p, issued_by p, issued_at p,
   expires_at p).

(** * Properties *)

(** ** Running the monad *)

Lemma state_eta (st : State) :
  mkState (penalties_json st) (users_active_json st) = st.
Proof. by destruct st. Qed.

Lemma plus_days_representable now d :
  representable now d ->
  Time.plus_days now d = Returns (now + d * Time.us_per_day).
Proof.
  intros [Hd [Hlo Hhi]]. unfold Time.plus_days, Time.timedelta_days.
  destruct (Z.leb_spec (Z.abs d) 999999999) as [_|?]; [|lia]. simpl.
  unfold Time.add, Time.in_range.
  destruct (Z.leb_spec 0 (now + d * Time.us_per_day)) as [_|?]; [|lia].
  destruct (Z.leb_spec (now + d * Time.us_per_day) Time.datetime_max) as [_|?]; [|lia].
  done.
Qed.

Lemma plus_days_overflow now d :
  ¬ representable now d -> Time.plus_days now d = Raises OverflowError.
Proof.
  intros Hn. unfold Time.plus_days, Time.timedelta_days.
  destruct (Z.leb_spec (Z.abs d) 999999999) as [Hd|?]; [|done]. simpl.
  unfold Time.add, Time.in_range.
  destruct (Z.leb_spec 0 (now + d * Time.us_per_day)) as [Hlo|?]; [|done].
  destruct (Z.leb_spec (now + d * Time.us_per_day) Time.datetime_max) as [Hhi|?]; [|done].
  exfalso. apply Hn. by repeat split.
Qed.

(** ** schemas.py *)

Section SchemasFacts.

Variable isoformat : Z -> string.
Variable fromisoformat : string -> outcome Time.parsed.

Lemma has_expired_returns now p :
  ∃ b, has_expired fromisoformat now p = Returns b.
Proof.
  unfold has_expired. destruct (expires_at p) as [s|]; [|by eexists].
  case_bool_decide; [by eexists|].
  unfold has_expired_try. destruct (fromisoformat s) as [[t|t off]|e]; simpl; by eexists.
Qed.

Lemma has_expired_absent now p :
  expires_at p = None ∨ expires_at p = Some "" ->
  has_expired fromisoformat now p = Returns false.
Proof.
  unfold has_expired. intros [-> | ->]; [done|]. by rewrite bool_decide_eq_true_2.
Qed.

Lemma has_expired_unparseable now p s e :
  expires_at p = Some s -> fromisoformat s = Raises e ->
  has_expired fromisoformat now p = Returns false.
Proof.
  unfold has_expired, has_expired_try. intros -> ->. by case_bool_decide.
Qed.

Lemma has_expired_aware now p s t off :
  expires_at p = Some s -> fromisoformat s = Returns (Time.Aware t off) ->
  has_expired fromisoformat now p = Returns false.
Proof.
  unfold has_expired, has_expired_try. intros -> ->. by case_bool_decide.
Qed.

Lemma time_remaining_returns now p :
  ∃ r, time_remaining fromisoformat now p = Returns r.
Proof.
  unfold time_remaining. destruct (expires_at p) as [s|]; [|by eexists].
  case_bool_decide; [by eexists|].
  unfold time_remaining_try.
  destruct (fromisoformat s) as [[t|t off]|e]; simpl; try by eexists.
  repeat case_match; by eexists.
Qed.

End SchemasFacts.

Lemma calculate_expiry_warning isoformat now severity dd :
  (∀ d, dd = Some d -> d <= 0) ->
  calculate_expiry isoformat now "warning" severity dd = Returns None.
Proof.
  intros Hno. unfold calculate_expiry. destruct dd as [d|]; [|done].
  destruct (Z.eqb_spec d 0) as [->|_]; [done|].
  destruct (Z.ltb_spec 0 d) as [Hd|_]; [|done].
  specialize (Hno d eq_refl). lia.
Qed.

Ltac expiry_case :=
  repeat first
    [ rewrite bool_decide_eq_true_2 by done
    | rewrite bool_decide_eq_false_2 by done ];
  try (rewrite plus_days_representable by done); done.

(** The ordered rule of [calculate_expiry], counted from its own clock
    reading [now]; each case with a date is stated for the dates Python
    can represent. *)
Lemma calculate_expiry_rule
    (isoformat : Z -> string) (now : Z) (p_type severity : string) (dd : option Z) :
  let expiry := calculate_expiry isoformat now p_type severity dd in
  let plus d := Returns (Some (isoformat (now + d * Time.us_per_day))) in
  let overridden := ∃ d, dd = Some d ∧ 0 < d in
  (∀ d, dd = Some d -> 0 < d -> representable now d -> expiry = plus d) ∧
  (¬ overridden -> p_type = "warning" -> expiry = Returns None) ∧
  (¬ overridden -> p_type ≠ "warning" ->
     (severity = "minor" -> representable now 3 -> expiry = plus 3) ∧
     (severity = "moderate" -> representable now 7 -> expiry = plus 7) ∧
     (severity = "severe" -> p_type = "suspension" ->
        representable now 30 -> expiry = plus 30) ∧
     (severity = "severe" -> p_type ≠ "suspension" ->
        representable now 14 -> expiry = plus 14) ∧
     (severity ≠ "minor" -> severity ≠ "moderate" -> severity ≠ "severe" ->
        representable now 7 -> expiry = plus 7)).
Proof.
  intros expiry plus overridden. subst expiry plus. unfold calculate_expiry.
  cbv zeta.
  split; [|split].
  - intros d -> Hd Hr.
    destruct (Z.eqb_spec d 0) as [?|_]; [lia|].
    destruct (Z.ltb_spec 0 d) as [_|?]; [|lia]. simpl.
    by rewrite plus_days_representable.
  - intros Hno ->.
    destruct dd as [d|]; [|done].
    destruct (Z.eqb_spec d 0) as [->|_]; [done|].
    destruct (Z.ltb_spec 0 d) as [Hd|_]; [|done].
    destruct Hno. by exists d.
  - intros Hno Hw.
    assert (Hdefault : ∀ (A : Type) (x : Z -> A) (y : A),
      match dd with
      | Some d => if negb (d =? 0) && (0 <? d) then x d else y
      | None => y
      end = y).
    { intros A x y. destruct dd as [d|]; [|done].
      destruct (Z.eqb_spec d 0) as [->|_]; [done|].
      destruct (Z.ltb_spec 0 d) as [Hd|_]; [|done].
      destruct Hno. by exists d. }
    repeat split; intros; rewrite Hdefault; subst; expiry_case.
Qed.

(** ** utils.py: what the operations compute *)

Lemma unlink_run uid pid st :
  _unlink_penalty_from_user uid pid st
  = (Returns tt, mkState (penalties_json st)
                         (unlink_users uid pid (users_active_json st))).
Proof.
  unfold _unlink_penalty_from_user, unlink_users, mbind, M_bind, load_active_users.
  destruct (unlink_loop uid pid (users_active_json st)); simpl; [done|].
  unfold mret, M_ret. by rewrite state_eta.
Qed.

Section UtilsFacts.

Variable isoformat : Z -> string.
Variable fromisoformat : string -> outcome Time.parsed.


Lemma expire_loop_run now ps all changed st :
  expire_loop fromisoformat now ps all changed st
  = (Returns (lapse fromisoformat now <$> ps, settle_rows fromisoformat now ps all,
              changed || existsb (is_due fromisoformat now) ps),
     mkState (penalties_json st) (settle_users fromisoformat now ps (users_active_json st))).
Proof.
  revert all changed st.
  induction ps as [|p ps IH]; intros all changed st; simpl.
  { unfold mret, M_ret. by rewrite orb_false_r, state_eta. }
  destruct (has_expired_returns fromisoformat now p) as [b Hb].
  unfold lapse, is_due. rewrite Hb.
  case_bool_decide as Hact; [destruct b|]; simpl;
    unfold mbind, M_bind; rewrite ?unlink_run, IH; simpl;
    by rewrite ?orb_true_r.
Qed.

Lemma settle_rows_idle now ps all :
  existsb (is_due fromisoformat now) ps = false ->
  settle_rows fromisoformat now ps all = all.
Proof.
  revert all. induction ps as [|p ps IH]; intros all; simpl; [done|].
  intros [Hp Hps]%orb_false_elim. unfold settle_rows. simpl.
  rewrite Hp. by apply IH.
Qed.


(** [get_penalties_for_user] never raises; its result and the state
    it leaves, in closed form. *)
Lemma get_penalties_for_user_run now uid st :
  let ps := row <$> rows_of uid (penalties_json st) in
  get_penalties_for_user fromisoformat now uid st
  = (Returns (lapse fromisoformat now <$> ps),
     mkState (settle_rows fromisoformat now ps (penalties_json st))
             (settle_users fromisoformat now ps (users_active_json st))).
Proof.
  intros ps. unfold get_penalties_for_user, mbind, M_bind, _load_penalties.
  fold (rows_of uid (penalties_json st)). fold ps.
  rewrite expire_loop_run. simpl.
  destruct (existsb (is_due fromisoformat now) ps) eqn:Hdue; simpl; [done|].
  by rewrite settle_rows_idle.
Qed.

End UtilsFacts.

(** ** Lists of linked identifiers *)

Lemma list_remove_subseteq x l y : y ∈ list_remove x l -> y ∈ l.
Proof.
  induction l as [|z l IH]; simpl; [done|].
  case_decide; [intros ?; by right|].
  intros [->|Hy]%elem_of_cons; [by left|]. right. by apply IH.
Qed.

Lemma list_remove_absent x l : x ∉ l -> list_remove x l = l.
Proof.
  induction l as [|z l IH]; simpl; [done|].
  intros [Hz Hl]%not_elem_of_cons. case_decide; [congruence|].
  by rewrite IH.
Qed.

Lemma list_remove_NoDup x l : NoDup l -> NoDup (list_remove x l) ∧ x ∉ list_remove x l.
Proof.
  induction 1 as [|z l Hz Hl IH]; simpl; [split; [constructor|apply not_elem_of_nil]|].
  case_decide as Hzx.
  - subst. by split.
  - destruct IH as [IH1 IH2]. split.
    + constructor; [|done]. intros Hin. by apply Hz, (list_remove_subseteq x).
    + apply not_elem_of_cons. split; [by intros ->|done].
Qed.

Lemma list_remove_other x y l : y ≠ x -> y ∈ l -> y ∈ list_remove x l.
Proof.
  intros Hne. induction l as [|z l IH]; simpl; [done|].
  case_decide as Hz.
  - intros [->|Hy]%elem_of_cons; [by destruct Hne|done].
  - intros [->|Hy]%elem_of_cons; [by left|]. right. by apply IH.
Qed.

(** [_unlink_penalty_from_user] takes the identifier out of the subject's
    list and leaves the other subjects' lists alone. *)
Lemma active_penalty_ids_unlink uid pid users :
  active_penalty_ids (unlink_users uid pid users) uid
  = list_remove pid (active_penalty_ids users uid).
Proof.
  unfold unlink_users, active_penalty_ids.
  induction users as [|u users IH]; simpl; [done|].
  destruct (decide (u_user_id u = uid)) as [Hu|Hu].
  - rewrite (bool_decide_eq_true_2 _ Hu).
    destruct (u_penalties u) as [ps|] eqn:Hps; simpl.
    + case_decide as Hin; simpl.
      * by rewrite (bool_decide_eq_true_2 _ Hu).
      * rewrite (bool_decide_eq_true_2 _ Hu), Hps. simpl.
        by rewrite list_remove_absent.
    + destruct (unlink_loop uid pid users); simpl;
        by rewrite (bool_decide_eq_true_2 _ Hu), Hps.
  - rewrite (bool_decide_eq_false_2 _ Hu).
    destruct (unlink_loop uid pid users) as [users'|]; simpl in *;
      by rewrite (bool_decide_eq_false_2 _ Hu).
Qed.

Lemma active_penalty_ids_unlink_other uid pid users uid' :
  uid' ≠ uid ->
  active_penalty_ids (unlink_users uid pid users) uid'
  = active_penalty_ids users uid'.
Proof.
  intros Hne. unfold unlink_users, active_penalty_ids.
  induction users as [|u users IH]; simpl; [done|].
  destruct (decide (u_user_id u = uid)) as [Hu|Hu].
  - assert (Hu' : u_user_id u ≠ uid') by congruence.
    destruct (u_penalties u) as [ps|] eqn:Hps; simpl.
    + case_decide; simpl; by rewrite !(bool_decide_eq_false_2 _ Hu').
    + destruct (unlink_loop uid pid users); simpl in *;
        by rewrite !(bool_decide_eq_false_2 _ Hu').
  - destruct (unlink_loop uid pid users) as [users'|]; simpl in *;
      by case_bool_decide.
Qed.

(** ** The lazy transition, in closed form *)

Lemma row_set_status_twice st r :
  row_set_status st (row_set_status st r) = row_set_status st r.
Proof. done. Qed.

Lemma expire_row_user_id due r : user_id (row (expire_row due r)) = user_id (row r).
Proof. unfold expire_row. by case_bool_decide. Qed.

Lemma expire_row_penalty_id due r :
  penalty_id (row (expire_row due r)) = penalty_id (row r).
Proof. unfold expire_row. by case_bool_decide. Qed.

Lemma expire_row_expires_at due r :
  expires_at (row (expire_row due r)) = expires_at (row r).
Proof. unfold expire_row. by case_bool_decide. Qed.

Lemma expire_row_nil r : expire_row [] r = r.
Proof. unfold expire_row. case_bool_decide as H; [by apply elem_of_nil in H|done]. Qed.

Lemma expire_row_cons pid due r :
  expire_row due (if decide (penalty_id (row r) = pid)
                  then row_set_status expired r else r)
  = expire_row (pid :: due) r.
Proof.
  unfold expire_row. case_decide as Hpid.
  - simpl. rewrite (bool_decide_eq_true_2 (_ ∈ pid :: due)) by (rewrite Hpid; by left).
    by case_bool_decide.
  - case_bool_decide as H1; case_bool_decide as H2; try done.
    + destruct H2. by right.
    + by apply elem_of_cons in H2 as [?|?].
Qed.

Lemma rows_of_fmap uid (f : Row -> Row) data :
  (∀ r, user_id (row (f r)) = user_id (row r)) ->
  rows_of uid (f <$> data) = f <$> rows_of uid data.
Proof.
  intros Hf. unfold rows_of.
  induction data as [|r data IH]; [done|].
  rewrite fmap_cons, !filter_cons, Hf.
  case_decide; by rewrite ?fmap_cons, IH.
Qed.

Section Settle.

Variable fromisoformat : string -> outcome Time.parsed.

Lemma settle_rows_cons now p ps all :
  settle_rows fromisoformat now (p :: ps) all
  = settle_rows fromisoformat now ps
      (if is_due fromisoformat now p then mark_expired (penalty_id p) all else all).
Proof. done. Qed.

Lemma settle_users_cons now p ps users :
  settle_users fromisoformat now (p :: ps) users
  = settle_users fromisoformat now ps
      (if is_due fromisoformat now p
       then unlink_users (user_id p) (penalty_id p) users else users).
Proof. done. Qed.

Lemma drop_due_cons now p ps linked :
  drop_due fromisoformat now (p :: ps) linked
  = drop_due fromisoformat now ps
      (if is_due fromisoformat now p
       then list_remove (penalty_id p) linked else linked).
Proof. done. Qed.

Lemma settle_rows_map now ps all :
  settle_rows fromisoformat now ps all
  = expire_row (penalty_id <$> filter (fun p => is_due fromisoformat now p) ps) <$> all.
Proof.
  revert all. induction ps as [|p ps IH]; intros all.
  - simpl. transitivity (id <$> all); [by rewrite list_fmap_id|].
    apply list_fmap_ext. intros i r _. by rewrite expire_row_nil.
  - rewrite settle_rows_cons.
    rewrite filter_cons. destruct (is_due fromisoformat now p) eqn:Hp.
    + rewrite decide_True by done. rewrite IH. unfold mark_expired.
      rewrite <- list_fmap_compose. apply list_fmap_ext.
      intros i r _. simpl. apply expire_row_cons.
    + rewrite decide_False by (by intros []). apply IH.
Qed.

Lemma settle_users_active now uid ps users :
  Forall (fun p => user_id p = uid) ps ->
  active_penalty_ids (settle_users fromisoformat now ps users) uid
  = drop_due fromisoformat now ps (active_penalty_ids users uid).
Proof.
  intros Hps. revert users.
  induction Hps as [|p ps Hp Hps IH]; intros users; [done|].
  rewrite settle_users_cons, drop_due_cons.
  destruct (is_due fromisoformat now p); [|apply IH].
  by rewrite IH, <- Hp, active_penalty_ids_unlink.
Qed.

Lemma settle_users_other now uid ps users uid' :
  Forall (fun p => user_id p = uid) ps -> uid' ≠ uid ->
  active_penalty_ids (settle_users fromisoformat now ps users) uid'
  = active_penalty_ids users uid'.
Proof.
  intros Hps Hne. revert users.
  induction Hps as [|p ps Hp Hps IH]; intros users; [done|].
  rewrite settle_users_cons.
  destruct (is_due fromisoformat now p); [|apply IH].
  rewrite IH. apply active_penalty_ids_unlink_other. by rewrite Hp.
Qed.

Lemma drop_due_subseteq now ps linked x :
  x ∈ drop_due fromisoformat now ps linked -> x ∈ linked.
Proof.
  revert linked. induction ps as [|p ps IH]; intros linked; [done|].
  rewrite drop_due_cons.
  intros Hx%IH. destruct (is_due fromisoformat now p); [|done].
  by eapply list_remove_subseteq.
Qed.

Lemma drop_due_NoDup now ps linked :
  NoDup linked ->
  NoDup (drop_due fromisoformat now ps linked)
  ∧ ∀ p, p ∈ ps -> is_due fromisoformat now p = true ->
         penalty_id p ∉ drop_due fromisoformat now ps linked.
Proof.
  revert linked. induction ps as [|p ps IH]; intros linked Hnd.
  { split; [done|]. intros p Hp. by apply elem_of_nil in Hp. }
  rewrite drop_due_cons.
  destruct (is_due fromisoformat now p) eqn:Hp.
  - destruct (list_remove_NoDup (penalty_id p) linked Hnd) as [Hnd' Hout].
    destruct (IH _ Hnd') as [IH1 IH2]. split; [done|].
    intros q [->|Hq]%elem_of_cons Hdue; [|by apply IH2].
    intros Hin. by apply Hout, (drop_due_subseteq now ps).
  - destruct (IH _ Hnd) as [IH1 IH2]. split; [done|].
    intros q [->|Hq]%elem_of_cons Hdue; [congruence|by apply IH2].
Qed.

(** A penalty that is not due stays linked. *)
Lemma drop_due_keeps now ps linked x :
  x ∈ linked ->
  (∀ p, p ∈ ps -> is_due fromisoformat now p = true -> penalty_id p ≠ x) ->
  x ∈ drop_due fromisoformat now ps linked.
Proof.
  revert linked. induction ps as [|p ps IH]; intros linked Hx Hne; [done|].
  rewrite drop_due_cons.
  apply IH; [|intros q Hq; apply Hne; by right].
  destruct (is_due fromisoformat now p) eqn:Hp; [|done].
  apply list_remove_other; [|done]. intros Heq.
  by apply (Hne p); [left| |].
Qed.

End Settle.

Lemma NoDup_fmap_eq {A B} (f : A -> B) (l : list A) x y :
  NoDup (f <$> l) -> x ∈ l -> y ∈ l -> f x = f y -> x = y.
Proof.
  induction l as [|z l IH]; simpl; [by intros _ ?%elem_of_nil|].
  intros [Hz Hl]%NoDup_cons [->|Hx]%elem_of_cons [->|Hy]%elem_of_cons Hf;
    [done| | |by apply IH].
  - destruct Hz. rewrite Hf. by apply list_elem_of_fmap_2.
  - destruct Hz. rewrite <- Hf. by apply list_elem_of_fmap_2.
Qed.


Section Idempotence.

Variable fromisoformat : string -> outcome Time.parsed.

Lemma is_due_set_status_expired now p :
  is_due fromisoformat now (set_status expired p) = false.
Proof. done. Qed.

Lemma lapse_idle now p : is_due fromisoformat now p = false -> lapse fromisoformat now p = p.
Proof. unfold lapse. by intros ->. Qed.

Lemma due_ids_intro now uid data r :
  r ∈ data -> user_id (row r) = uid -> is_due fromisoformat now (row r) = true ->
  penalty_id (row r) ∈ due_ids fromisoformat now uid data.
Proof.
  intros Hr Hu Hd. unfold due_ids. apply list_elem_of_fmap_2.
  apply list_elem_of_filter. split; [by rewrite Hd|].
  apply list_elem_of_fmap_2. by apply list_elem_of_filter.
Qed.

Lemma due_ids_elim now uid data pid :
  pid ∈ due_ids fromisoformat now uid data ->
  ∃ r, r ∈ data ∧ user_id (row r) = uid ∧ penalty_id (row r) = pid
       ∧ is_due fromisoformat now (row r) = true.
Proof.
  unfold due_ids.
  intros (p & -> & [Hd (r & -> & [Hu Hr]%list_elem_of_filter)%list_elem_of_fmap_1
                   ]%list_elem_of_filter)%list_elem_of_fmap_1.
  exists r. repeat split; try done. by destruct (is_due fromisoformat now (row r)).
Qed.


(** With distinct identifiers, the stored row and the returned object
    make the same transition. *)
Lemma expire_row_lapse now uid data r :
  NoDup (ids data) -> r ∈ data -> user_id (row r) = uid ->
  row (expire_row (due_ids fromisoformat now uid data) r)
  = lapse fromisoformat now (row r).
Proof.
  intros Hnd Hr Hu. unfold expire_row, lapse.
  case_bool_decide as Hin.
  - apply due_ids_elim in Hin as (r' & Hr' & _ & Hid & Hd).
    assert (r' = r) as -> by (by eapply (NoDup_fmap_eq _ data)).
    by rewrite Hd.
  - destruct (is_due fromisoformat now (row r)) eqn:Hd; [|done].
    destruct Hin. by apply due_ids_intro.
Qed.

(** With distinct identifiers, only the subject's due rows change. *)
Lemma expire_row_untouched now uid data r :
  NoDup (ids data) -> r ∈ data ->
  ¬ (user_id (row r) = uid ∧ is_due fromisoformat now (row r) = true) ->
  expire_row (due_ids fromisoformat now uid data) r = r.
Proof.
  intros Hnd Hr Hnot. unfold expire_row.
  case_bool_decide as Hin; [|done].
  apply due_ids_elim in Hin as (r' & Hr' & Hu & Hid & Hd).
  assert (r' = r) as -> by (by eapply (NoDup_fmap_eq _ data)).
  by destruct Hnot.
Qed.


(** With distinct identifiers, the list a read returns is what the store
    then holds for the subject. *)
Lemma lapse_rows_stored now uid data :
  NoDup (ids data) ->
  row <$> rows_of uid (expire_row (due_ids fromisoformat now uid data) <$> data)
  = lapse fromisoformat now <$> (row <$> rows_of uid data).
Proof.
  intros Hnd. rewrite rows_of_fmap by (intros r; apply expire_row_user_id).
  rewrite <- !list_fmap_compose. apply list_fmap_ext. intros i r Hr. simpl.
  apply list_elem_of_lookup_2, list_elem_of_filter in Hr as [Hu Hr].
  by apply expire_row_lapse.
Qed.



End Idempotence.



(** ** Penalties that never lapse *)

Lemma ids_expire_row due data : ids (expire_row due <$> data) = ids data.
Proof.
  unfold ids. rewrite <- list_fmap_compose. apply list_fmap_ext.
  intros i r _. simpl. apply expire_row_penalty_id.
Qed.

Section NeverDue.

Variable fromisoformat : string -> outcome Time.parsed.

Lemma get_penalties_for_user_rows now uid st :
  penalties_json (snd (get_penalties_for_user fromisoformat now uid st))
  = expire_row (due_ids fromisoformat now uid (penalties_json st)) <$> penalties_json st.
Proof. rewrite get_penalties_for_user_run. simpl. apply settle_rows_map. Qed.

Lemma after_reads_ids calls st :
  ids (penalties_json (after_reads fromisoformat calls st)) = ids (penalties_json st).
Proof.
  revert st. induction calls as [|[now uid] calls IH]; intros st; simpl; [done|].
  by rewrite IH, get_penalties_for_user_rows, ids_expire_row.
Qed.

(** A row that is due at no time survives every sequence of reads. *)
Lemma never_due_stays st r calls :
  NoDup (ids (penalties_json st)) -> r ∈ penalties_json st ->
  (∀ now, is_due fromisoformat now (row r) = false) ->
  r ∈ penalties_json (after_reads fromisoformat calls st).
Proof.
  intros Hnd Hr Hnever. revert st Hnd Hr.
  induction calls as [|[now uid] calls IH]; intros st Hnd Hr; simpl; [done|].
  apply IH.
  - by rewrite get_penalties_for_user_rows, ids_expire_row.
  - rewrite get_penalties_for_user_rows.
    rewrite <- (expire_row_untouched fromisoformat now uid (penalties_json st) r);
      [by apply list_elem_of_fmap_2|done|done|].
    intros [_ Hd]. by rewrite Hnever in Hd.
Qed.

(** ... and every read made for its subject returns it as it is. *)
Lemma never_due_returned st r now :
  r ∈ penalties_json st ->
  is_due fromisoformat now (row r) = false ->
  ∃ l, fst (get_penalties_for_user fromisoformat now (user_id (row r)) st) = Returns l
       ∧ row r ∈ l.
Proof.
  intros Hr Hd. rewrite get_penalties_for_user_run. simpl. eexists. split; [done|].
  rewrite <- (lapse_idle fromisoformat now (row r)) at 1 by done.
  apply list_elem_of_fmap_2, list_elem_of_fmap_2. by apply list_elem_of_filter.
Qed.

Lemma unparseable_not_due now p :
  unparseable fromisoformat (expires_at p) -> is_due fromisoformat now p = false.
Proof.
  unfold unparseable, is_due. intros Hp.
  destruct (expires_at p) as [s|] eqn:Hs.
  - destruct Hp as [->|[e He]].
    + rewrite has_expired_absent by (by right). apply andb_false_r.
    + rewrite (has_expired_unparseable _ _ _ s e) by done. apply andb_false_r.
  - rewrite has_expired_absent by (by left). apply andb_false_r.
Qed.

End NeverDue.

(** C10. [has_expired] returns on every stored [expires_at], and returns
    [False] when the field is absent, empty or not accepted by
    [fromisoformat]; an active penalty with such a field, among rows with
    distinct identifiers, is still stored unchanged, hence active, after
    any sequence of [get_penalties_for_user] calls, and a call for its
    subject then returns it unchanged. *)
Theorem has_expired_total_never_lapses
    (fromisoformat : string -> outcome Time.parsed) :
  (∀ now p, ∃ b, has_expired fromisoformat now p = Returns b) ∧
  (∀ now p, unparseable fromisoformat (expires_at p) ->
            has_expired fromisoformat now p = Returns false) ∧
  (∀ st r calls now,
     NoDup (ids (penalties_json st)) -> r ∈ penalties_json st ->
     status (row r) = active -> unparseable fromisoformat (expires_at (row r)) ->
     let st' := after_reads fromisoformat calls st in
     r ∈ penalties_json st'
     ∧ ∃ l, fst (get_penalties_for_user fromisoformat now (user_id (row r)) st') = Returns l
            ∧ row r ∈ l).
Proof.
  split; [apply has_expired_returns|]. split.
  - intros now p Hp. unfold unparseable in Hp.
    destruct (expires_at p) as [s|] eqn:Hs.
    + destruct Hp as [->|[e He]].
      * apply has_expired_absent. by right.
      * by apply (has_expired_unparseable _ _ _ s e).
    + apply has_expired_absent. by left.
  - intros st r calls now Hnd Hr Hact Hp st'.
    assert (Hin : r ∈ penalties_json st').
    { apply never_due_stays; [done|done|]. intros t. by apply unparseable_not_due. }
    split; [done|].
    apply never_due_returned; [done|]. by apply unparseable_not_due.
Qed.

Lemma has_expired_total_never_lapses_witness :
  Iso.fromisoformat "next week" = Raises ValueError ∧
  has_expired Iso.fromisoformat Demo.t_later Demo.odd = Returns false ∧
  let st' := after_reads Iso.fromisoformat
               [(Demo.t_later, "u1"); (Demo.t_later + 1, "u2")] Demo.st_odd in
  dict Demo.odd ∈ penalties_json st'
  ∧ ∃ l, fst (get_penalties_for_user Iso.fromisoformat (Demo.t_later + 2) "u1" st')
         = Returns l ∧ Demo.odd ∈ l.
Proof.
  destruct (has_expired_total_never_lapses Iso.fromisoformat) as (_ & Hfalse & Hstays).
  assert (Hodd : unparseable Iso.fromisoformat (expires_at Demo.odd)).
  { right. exists ValueError. by vm_compute. }
  split; [by vm_compute|]. split; [by apply Hfalse|].
  apply (Hstays Demo.st_odd (dict Demo.odd)); [|by left|done|done].
  apply (bool_decide_unpack _). by vm_compute.
Defined.

(** ** Issuing *)

Lemma add_penalty_run p st :
  add_penalty p st
  = (Returns p,
     mkState (penalties_json st ++ [dict p])
             (link_users (user_id p) (penalty_id p) (users_active_json st))).
Proof.
  unfold add_penalty, link_users, mbind, M_bind, _load_penalties, _save_penalties,
    load_active_users. simpl.
  by destruct (link_loop (user_id p) (penalty_id p) (users_active_json st)).
Qed.

Lemma issue_penalty_run isoformat now stamp uuid payload cu st expires :
  cu_role cu ∈ Router.staff ->
  calculate_expiry isoformat now (type_str (pc_type payload))
    (severity_str (pc_severity payload)) (duration_days payload) = Returns expires ->
  let p := mkPenalty (pc_user_id payload) (pc_type payload) (pc_severity payload)
             (pc_reason payload) (pc_notes payload) uuid (cu_user_id cu)
             (isoformat stamp) expires active in
  Router.issue_penalty isoformat now stamp uuid payload cu st
  = (Returns p,
     mkState (penalties_json st ++ [dict p])
             (link_users (pc_user_id payload) uuid (users_active_json st))).
Proof.
  intros Hrole Hexp p. unfold Router.issue_penalty.
  rewrite bool_decide_eq_false_2 by (by intros ?).
  unfold mbind, M_bind, lift. rewrite Hexp. apply add_penalty_run.
Qed.

(** C2, as stated, fails: [issued_at] is not the time the expiry is
    counted from. [calculate_expiry] reads the clock, and the default
    factory of [issued_at] reads it again when the penalty is built; with
    37 microseconds between the two readings, a minor review ban is
    stamped ...03.000038 and expires ...03.000001 three days later,
    which is not its [issued_at] plus three days. *)
Lemma expiry_not_issued_at_plus_days :
  let p := mkPenalty "u1" review_ban minor "Spam" None "p1" "adm1"
             "2021-07-30T01:02:03.000038" (Some "2021-08-02T01:02:03.000001") active in
  Router.issue_penalty Iso.isoformat Demo.t_issue (Demo.t_issue + 37) "p1"
    Demo.spam Demo.admin Demo.st0
  = (Returns p, mkState [dict p] [mkUser "u1" (Some ["p1"])])
  ∧ Iso.fromisoformat (issued_at p) = Returns (Time.Naive (Demo.t_issue + 37))
  ∧ Iso.fromisoformat "2021-08-02T01:02:03.000001"
    = Returns (Time.Naive (Demo.t_issue + 3 * Time.us_per_day))
  ∧ Demo.t_issue + 3 * Time.us_per_day ≠ (Demo.t_issue + 37) + 3 * Time.us_per_day.
Proof.
  split; [by vm_compute|]. split; [by vm_compute|]. split; [by vm_compute|]. lia.
Qed.

(** C2, amended. The expiry computed at an issuance follows the ordered
    rule, counted from [now], the clock reading [calculate_expiry] takes:
    a positive [duration_days] gives [now + duration_days] days whatever
    the type and the severity; otherwise a warning gets no expiry;
    otherwise minor gives 3 days, moderate 7, severe 14 but 30 for a
    suspension, and any other severity 7 (each case with a date is stated
    for the dates Python can represent). The penalty [POST /penalties]
    stores carries that expiry, and an [issued_at] stamped from [stamp],
    a clock reading of its own taken afterwards. *)
Theorem calculate_expiry_ordered_rule
    (isoformat : Z -> string) (now : Z) (p_type severity : string) (dd : option Z) :
  let expiry := calculate_expiry isoformat now p_type severity dd in
  let plus d := Returns (Some (isoformat (now + d * Time.us_per_day))) in
  let overridden := ∃ d, dd = Some d ∧ 0 < d in
  let asks payload :=
    type_str (pc_type payload) = p_type ∧ severity_str (pc_severity payload) = severity
    ∧ duration_days payload = dd in
  (∀ d, dd = Some d -> 0 < d -> representable now d -> expiry = plus d) ∧
  (¬ overridden -> p_type = "warning" -> expiry = Returns None) ∧
  (¬ overridden -> p_type ≠ "warning" ->
     (severity = "minor" -> representable now 3 -> expiry = plus 3) ∧
     (severity = "moderate" -> representable now 7 -> expiry = plus 7) ∧
     (severity = "severe" -> p_type = "suspension" ->
        representable now 30 -> expiry = plus 30) ∧
     (severity = "severe" -> p_type ≠ "suspension" ->
        representable now 14 -> expiry = plus 14) ∧
     (severity ≠ "minor" -> severity ≠ "moderate" -> severity ≠ "severe" ->
        representable now 7 -> expiry = plus 7)) ∧
  (∀ stamp uuid payload cu st p st', asks payload ->
     Router.issue_penalty isoformat now stamp uuid payload cu st = (Returns p, st') ->
     expiry = Returns (expires_at p) ∧ issued_at p = isoformat stamp
     ∧ dict p ∈ penalties_json st') ∧
  (∀ stamp uuid payload cu st e, asks payload ->
     cu_role cu ∈ Router.staff -> expiry = Returns e ->
     ∃ p st', Router.issue_penalty isoformat now stamp uuid payload cu st = (Returns p, st')
              ∧ expires_at p = e ∧ issued_at p = isoformat stamp).
Proof.
  intros expiry plus overridden asks.
  destruct (calculate_expiry_rule isoformat now p_type severity dd) as (H1 & H2 & H3).
  split; [exact H1|]. split; [exact H2|]. split; [exact H3|].
  subst expiry asks. cbv beta. split.
  - intros stamp uuid payload cu st p st' (<- & <- & <-) Hrun.
    unfold Router.issue_penalty in Hrun.
    destruct (bool_decide (cu_role cu ∉ Router.staff)); [done|].
    unfold mbind, M_bind, lift in Hrun.
    destruct (calculate_expiry isoformat now (type_str (pc_type payload))
                (severity_str (pc_severity payload)) (duration_days payload))
      as [e|err]; [|done].
    rewrite add_penalty_run in Hrun. injection Hrun as <- <-. simpl.
    split; [done|]. split; [done|]. apply elem_of_app. right. by left.
  - intros stamp uuid payload cu st e (<- & <- & <-) Hrole He.
    do 2 eexists. split; [by apply issue_penalty_run|]. by split.
Qed.

Lemma calculate_expiry_ordered_rule_witness :
  let now := 63763203723000001 in
  Iso.isoformat now = "2021-07-30T01:02:03.000001" ∧
  calculate_expiry Iso.isoformat now "review_ban" "minor" (Some 5)
    = Returns (Some "2021-08-04T01:02:03.000001") ∧
  calculate_expiry Iso.isoformat now "warning" "severe" None = Returns None ∧
  calculate_expiry Iso.isoformat now "review_ban" "minor" None
    = Returns (Some "2021-08-02T01:02:03.000001") ∧
  calculate_expiry Iso.isoformat now "suspension" "severe" (Some 0)
    = Returns (Some "2021-08-29T01:02:03.000001").
Proof.
  intros now.
  assert (Hr : ∀ d, 0 <= d <= 30 -> representable now d).
  { intros d Hd. unfold representable, Time.us_per_day, Time.datetime_max,
      Time.us_per_day, Time.us_per_second, now. lia. }
  assert (Hno : ∀ dd, dd = None ∨ dd = Some 0 -> ¬ ∃ d, dd = Some d ∧ 0 < d).
  { intros dd [-> | ->] (d & Hd & Hpos); [done|]. injection Hd as <-. lia. }
  split; [by vm_compute|].
  split; [|split; [|split]].
  - destruct (calculate_expiry_ordered_rule Iso.isoformat now
               "review_ban" "minor" (Some 5)) as (H & _ & _).
    rewrite (H 5); [by vm_compute|done|lia|apply Hr; lia].
  - destruct (calculate_expiry_ordered_rule Iso.isoformat now
               "warning" "severe" None) as (_ & H & _).
    apply H; [apply Hno; by left|done].
  - destruct (calculate_expiry_ordered_rule Iso.isoformat now
               "review_ban" "minor" None) as (_ & _ & H & _).
    destruct H as (H & _); [apply Hno; by left|done|].
    rewrite H; [by vm_compute|done|apply Hr; lia].
  - destruct (calculate_expiry_ordered_rule Iso.isoformat now
               "suspension" "severe" (Some 0)) as (_ & _ & H & _).
    destruct H as (_ & _ & H & _); [apply Hno; by right|done|].
    rewrite H; [by vm_compute|done|done|apply Hr; lia].
Defined.

(** C6, as stated, fails: a warning issued with [duration_days = 5] gets
    an expiry, and a read after that date returns it expired. *)
Lemma warning_with_override_lapses :
  Router.issue_penalty Iso.isoformat Demo.t_issue Demo.t_issue "w1" Demo.rude_5_days
    Demo.admin Demo.st0
  = (Returns Demo.w1, mkState [dict Demo.w1] [mkUser "u1" (Some ["w1"])])
  ∧ type Demo.w1 = warning
  ∧ expires_at Demo.w1 = Some "2021-08-04T01:02:03.000001"
  ∧ status Demo.w1 = active
  ∧ get_penalties_for_user Iso.fromisoformat Demo.t_later "u1"
      (mkState [dict Demo.w1] [mkUser "u1" (Some ["w1"])])
    = (Returns [set_status expired Demo.w1],
       mkState [dict (set_status expired Demo.w1)] [mkUser "u1" (Some [])]).
Proof. by vm_compute. Qed.

(** C6, amended. A warning issued without a positive [duration_days] has
    no expiry and [has_expired] is false of it at every time; once stored
    under an identifier no other row has, it is still stored as issued,
    status [active], after any sequence of [get_penalties_for_user] calls,
    and a call for its subject returns it as issued. *)
Theorem warning_without_override_never_lapses
    (isoformat : Z -> string) (fromisoformat : string -> outcome Time.parsed)
    (now stamp : Z) (uuid : string) (payload : PenaltyCreate) (cu : CurrentUser) (st : State) :
  pc_type payload = warning ->
  (∀ d, duration_days payload = Some d -> d <= 0) ->
  cu_role cu ∈ Router.staff ->
  ∃ p st',
    Router.issue_penalty isoformat now stamp uuid payload cu st = (Returns p, st')
    ∧ type p = warning ∧ expires_at p = None ∧ status p = active
    ∧ dict p ∈ penalties_json st'
    ∧ (∀ t, has_expired fromisoformat t p = Returns false)
    ∧ (NoDup (ids (penalties_json st)) -> uuid ∉ ids (penalties_json st) ->
       ∀ calls t,
         let st'' := after_reads fromisoformat calls st' in
         dict p ∈ penalties_json st''
         ∧ ∃ l, fst (get_penalties_for_user fromisoformat t (user_id p) st'') = Returns l
                ∧ p ∈ l).
Proof.
  intros Hw Hno Hrole.
  assert (Hexp : calculate_expiry isoformat now (type_str (pc_type payload))
                   (severity_str (pc_severity payload)) (duration_days payload)
                 = Returns None).
  { rewrite Hw. by apply calculate_expiry_warning. }
  do 2 eexists. split; [by apply issue_penalty_run|]. simpl.
  split; [done|]. split; [done|]. split; [done|].
  split; [apply elem_of_app; right; by left|]. split.
  { intros t. by apply has_expired_absent; left. }
  intros Hnd Hfresh calls t.
  match goal with |- context [dict ?q] => set (p := q) end.
  assert (Hdue : ∀ t', is_due fromisoformat t' (row (dict p)) = false).
  { intros t'. by apply unparseable_not_due. }
  assert (Hin : dict p ∈ penalties_json
                  (after_reads fromisoformat calls
                     (mkState (penalties_json st ++ [dict p])
                        (link_users (pc_user_id payload) uuid (users_active_json st))))).
  { apply never_due_stays; [|apply elem_of_app; right; by left|done]. simpl.
    unfold ids in *. rewrite fmap_app. apply NoDup_app. split; [done|].
    split; [|apply NoDup_singleton]. intros x Hx Hx'.
    apply list_elem_of_singleton in Hx' as ->. by apply Hfresh. }
  split; [done|].
  by apply (never_due_returned fromisoformat _ (dict p) t).
Qed.

Lemma warning_without_override_never_lapses_witness :
  ∃ p st',
    Router.issue_penalty Iso.isoformat Demo.t_issue Demo.t_issue "w1" Demo.rude Demo.moderator Demo.st1
      = (Returns p, st')
    ∧ type p = warning ∧ expires_at p = None
    ∧ let st'' := after_reads Iso.fromisoformat
                    [(Demo.t_later, "u1"); (Demo.t_later + 1, "u1")] st' in
      dict p ∈ penalties_json st''
      ∧ ∃ l, fst (get_penalties_for_user Iso.fromisoformat (Demo.t_later + 2) "u1" st'')
             = Returns l ∧ p ∈ l.
Proof.
  destruct (warning_without_override_never_lapses Iso.isoformat Iso.fromisoformat
              Demo.t_issue Demo.t_issue "w1" Demo.rude Demo.moderator Demo.st1)
    as (p & st' & Hrun & Hty & Hexp & Hact & Hin & Hnever & Hstays).
  - done.
  - intros d Hd. discriminate Hd.
  - apply (bool_decide_unpack _). by vm_compute.
  - exists p, st'. split; [done|]. split; [done|]. split; [done|].
    assert (Hu : user_id p = "u1").
    { rewrite (issue_penalty_run Iso.isoformat _ _ _ _ _ _ None) in Hrun;
        [by injection Hrun as <- _| |by vm_compute].
      apply (bool_decide_unpack _). by vm_compute. }
    rewrite <- Hu. apply Hstays.
    + apply (bool_decide_unpack _). by vm_compute.
    + apply (bool_decide_unpack _). by vm_compute.
Defined.

(** ** The restriction check *)

Section RestrictionFacts.

Variable fromisoformat : string -> outcome Time.parsed.

Lemma blocked_message_nonempty p remaining : blocked_message p remaining ≠ "".
Proof. done. Qed.

(** The loop stops at the first active penalty of a blocked type. *)
Lemma blocked_loop_first now blocked_types l :
  let hit p := status p = active ∧ type_str (type p) ∈ blocked_types in
  (blocked_loop fromisoformat now blocked_types l = Returns None
   ∧ Forall (fun q => ¬ hit q) l)
  ∨ ∃ l1 p l2 tr,
      l = l1 ++ p :: l2 ∧ Forall (fun q => ¬ hit q) l1 ∧ hit p
      ∧ time_remaining fromisoformat now p = Returns tr
      ∧ blocked_loop fromisoformat now blocked_types l
        = Returns (Some (blocked_message p (remaining_or_unknown tr))).
Proof.
  intros hit. induction l as [|p l IH]; simpl.
  { left. by split. }
  destruct (decide (status p = active)) as [Hs|Hs];
    [destruct (decide (type_str (type p) ∈ blocked_types)) as [Ht|Ht]|].
  - right. destruct (time_remaining_returns fromisoformat now p) as [tr Htr].
    exists [], p, l, tr.
    rewrite !bool_decide_eq_true_2, Htr by done. simpl.
    split; [done|]. split; [done|]. by split; [|split].
  - rewrite (bool_decide_eq_false_2 (_ ∈ _)), andb_false_r by done.
    destruct IH as [[Hr Hall]|(l1 & q & l2 & tr & -> & Hl1 & Hq & Htr & Hr)].
    + left. split; [done|]. constructor; [by intros [_ ?]|done].
    + right. exists (p :: l1), q, l2, tr.
      split; [done|]. split; [|by split; [|split]].
      constructor; [by intros [_ ?]|done].
  - rewrite (bool_decide_eq_false_2 (status p = active)) by done. simpl.
    destruct IH as [[Hr Hall]|(l1 & q & l2 & tr & -> & Hl1 & Hq & Htr & Hr)].
    + left. split; [done|]. constructor; [by intros [? _]|done].
    + right. exists (p :: l1), q, l2, tr.
      split; [done|]. split; [|by split; [|split]].
      constructor; [by intros [? _]|done].
Qed.

Lemma check_active_penalty_run now later uid blocked_types st :
  check_active_penalty fromisoformat now later uid blocked_types st
  = (blocked_loop fromisoformat later blocked_types
       (lapse fromisoformat now <$> (row <$> rows_of uid (penalties_json st))),
     snd (get_penalties_for_user fromisoformat now uid st)).
Proof.
  unfold check_active_penalty, mbind, M_bind, lift.
  by rewrite get_penalties_for_user_run.
Qed.

End RestrictionFacts.

(** C9. [check_active_penalty] runs [get_penalties_for_user], leaves the
    state that call leaves, and returns a message exactly when the list
    that call returned holds a penalty with status [active] whose type is
    among [blocked_types]; the message is not empty and is the one built
    from the first such penalty of the list, with the time left that
    [time_remaining] gives at its own reading; it returns [None] otherwise,
    so in particular when every penalty of a blocked type is resolved or
    expired. With distinct stored identifiers, the returned list is what
    the store holds for the subject after the call. *)
Theorem check_active_penalty_first_active
    (fromisoformat : string -> outcome Time.parsed)
    (now later : Z) (uid : string) (blocked_types : list string) (st : State) :
  let hit p := status p = active ∧ type_str (type p) ∈ blocked_types in
  ∃ l st' r,
    get_penalties_for_user fromisoformat now uid st = (Returns l, st')
    ∧ check_active_penalty fromisoformat now later uid blocked_types st = (Returns r, st')
    ∧ (is_Some r ↔ ∃ p, p ∈ l ∧ hit p)
    ∧ (∀ msg, r = Some msg ->
         msg ≠ ""
         ∧ ∃ l1 p l2 tr,
             l = l1 ++ p :: l2 ∧ Forall (fun q => ¬ hit q) l1 ∧ hit p
             ∧ time_remaining fromisoformat later p = Returns tr
             ∧ msg = blocked_message p (remaining_or_unknown tr))
    ∧ ((∀ p, p ∈ l -> type_str (type p) ∈ blocked_types ->
             status p = resolved ∨ status p = expired) -> r = None)
    ∧ (NoDup (ids (penalties_json st)) -> l = row <$> rows_of uid (penalties_json st')).
Proof.
  intros hit.
  set (l := lapse fromisoformat now <$> (row <$> rows_of uid (penalties_json st))).
  set (st' := snd (get_penalties_for_user fromisoformat now uid st)).
  assert (Hrun : get_penalties_for_user fromisoformat now uid st = (Returns l, st')).
  { unfold st'. by rewrite get_penalties_for_user_run. }
  assert (Hcheck : check_active_penalty fromisoformat now later uid blocked_types st
                   = (blocked_loop fromisoformat later blocked_types l, st')).
  { by rewrite check_active_penalty_run. }
  assert (Hstored : NoDup (ids (penalties_json st)) ->
                    l = row <$> rows_of uid (penalties_json st')).
  { intros Hnd. unfold st'. rewrite get_penalties_for_user_rows.
    symmetry. by apply lapse_rows_stored. }
  destruct (blocked_loop_first fromisoformat later blocked_types l)
    as [[Hr Hall]|(l1 & p & l2 & tr & Hl & Hl1 & Hp & Htr & Hr)].
  - exists l, st', None. rewrite Hcheck, Hr.
    split; [done|]. split; [done|]. split; [|split; [done|split; done]].
    split; [by intros [? ?]|]. intros (p & Hin & Hp).
    rewrite Forall_forall in Hall. by destruct (Hall p Hin).
  - exists l, st', (Some (blocked_message p (remaining_or_unknown tr))).
    rewrite Hcheck, Hr.
    split; [done|]. split; [done|]. split; [|split; [|split; [|done]]].
    + split; [|by eexists]. intros _. exists p. split; [|done].
      rewrite Hl. apply elem_of_app. right. by left.
    + intros msg [= <-]. split; [apply blocked_message_nonempty|].
      by exists l1, p, l2, tr.
    + intros Hnone. destruct Hp as [Hact Hty].
      destruct (Hnone p) as [Hs|Hs];
        [rewrite Hl; apply elem_of_app; right; by left|done| |];
        rewrite Hact in Hs; discriminate Hs.
Qed.

Lemma check_active_penalty_first_active_witness :
  (∃ msg, fst (check_active_penalty Iso.fromisoformat (Demo.t_issue + Time.us_per_day)
                 (Demo.t_issue + Time.us_per_day) "u1" ["review_ban"] Demo.st1)
          = Returns (Some msg)
          ∧ msg ≠ ""
          ∧ msg = "Action blocked due to active review_ban (Spam) — 2d 0h remaining.")
  ∧ fst (check_active_penalty Iso.fromisoformat Demo.t_later Demo.t_later
           "u1" ["review_ban"] Demo.st1) = Returns None.
Proof.
  split.
  - destruct (check_active_penalty_first_active Iso.fromisoformat
                (Demo.t_issue + Time.us_per_day) (Demo.t_issue + Time.us_per_day)
                "u1" ["review_ban"] Demo.st1)
      as (l & st' & r & Hget & Hcheck & Hiff & Hmsg & _ & _).
    assert (Hl : l = [Demo.p1]).
    { assert (H : fst (get_penalties_for_user Iso.fromisoformat
                         (Demo.t_issue + Time.us_per_day) "u1" Demo.st1)
                  = Returns [Demo.p1]) by (by vm_compute).
      rewrite Hget in H. by injection H. }
    destruct (proj2 Hiff) as [msg Hr].
    { exists Demo.p1. rewrite Hl. split; [by left|]. split; [done|]. by left. }
    exists msg. rewrite Hcheck, Hr. split; [done|].
    destruct (Hmsg msg Hr) as [Hne _]. split; [done|].
    assert (H : fst (check_active_penalty Iso.fromisoformat
                       (Demo.t_issue + Time.us_per_day) (Demo.t_issue + Time.us_per_day)
                       "u1" ["review_ban"] Demo.st1)
                = Returns (Some
                    "Action blocked due to active review_ban (Spam) — 2d 0h remaining."))
      by (by vm_compute).
    rewrite Hcheck, Hr in H. by injection H.
  - destruct (check_active_penalty_first_active Iso.fromisoformat
                Demo.t_later Demo.t_later "u1" ["review_ban"] Demo.st1)
      as (l & st' & r & Hget & Hcheck & _ & _ & Hnone & _).
    assert (Hl : l = [set_status expired Demo.p1]).
    { assert (H : fst (get_penalties_for_user Iso.fromisoformat
                         Demo.t_later "u1" Demo.st1)
                  = Returns [set_status expired Demo.p1]) by (by vm_compute).
      rewrite Hget in H. by injection H. }
    rewrite Hcheck. simpl. f_equal. apply Hnone.
    intros p. rewrite Hl. intros ->%list_elem_of_singleton _. by right.
Defined.

(** ** The token authority *)

(** C7. [verify] checks structure first, then revocation, then expiry: a
    malformed token is [AuthInvalid] even when revoked; a well-formed
    token in the revocation store is [AuthRevoked] whether or not its
    expiry has passed, and stays so whatever is revoked afterwards; only
    a well-formed token that is not revoked can be [AuthExpired]. *)
Theorem verify_revoked_before_expiry
    (decode : string -> option TokenAuthority.Claims)
    (revoked : gset string) (now : Z) (T : string) :
  (decode T = None -> TokenAuthority.verify decode revoked now T = inl TokenAuthority.AuthInvalid)
  ∧ (∀ c, decode T = Some c -> T ∈ revoked ->
          TokenAuthority.verify decode revoked now T = inl TokenAuthority.AuthRevoked)
  ∧ (∀ c later, decode T = Some c ->
          TokenAuthority.verify decode
            (foldr TokenAuthority.revoke (TokenAuthority.revoke T revoked) later) now T
          = inl TokenAuthority.AuthRevoked)
  ∧ (∀ c, decode T = Some c -> T ∉ revoked -> TokenAuthority.c_expires_at c < now ->
          TokenAuthority.verify decode revoked now T = inl TokenAuthority.AuthExpired)
  ∧ (∀ c, decode T = Some c -> T ∉ revoked -> now <= TokenAuthority.c_expires_at c ->
          TokenAuthority.verify decode revoked now T = inr c).
Proof.
  unfold TokenAuthority.verify.
  split; [by intros ->|]. split; [|split; [|split]].
  - intros c -> Hin. by rewrite decide_True.
  - intros c later -> . rewrite decide_True; [done|].
    induction later as [|t later IH]; simpl; unfold TokenAuthority.revoke in *; set_solver.
  - intros c -> Hout Hexp. rewrite decide_False by done.
    by destruct (Z.ltb_spec (TokenAuthority.c_expires_at c) now); [|lia].
  - intros c -> Hout Hexp. rewrite decide_False by done.
    by destruct (Z.ltb_spec (TokenAuthority.c_expires_at c) now); [lia|].
Qed.

Lemma verify_revoked_before_expiry_witness :
  let fresh := Demo.t_issue + 1 in
  (∃ c, TokenAuthority.verify Demo.decode ∅ fresh "session.u1" = inr c)
  ∧ TokenAuthority.verify Demo.decode (TokenAuthority.revoke "session.u1" ∅) fresh "session.u1"
    = inl TokenAuthority.AuthRevoked
  ∧ TokenAuthority.verify Demo.decode {[ "session.u1" ]} Demo.t_later "session.u1"
    = inl TokenAuthority.AuthRevoked.
Proof.
  intros fresh.
  assert (Hdec : Demo.decode "session.u1"
                 = Some (TokenAuthority.mkClaims "u1" "member" "active" Demo.t_issue
                           (Demo.t_issue + 30 * 60 * Time.us_per_second))) by done.
  split; [|split].
  - eexists.
    apply (proj2 (proj2 (proj2 (proj2
             (verify_revoked_before_expiry Demo.decode ∅ fresh "session.u1")))) _ Hdec).
    + set_solver.
    + unfold fresh, Demo.t_issue, Time.us_per_second. simpl. lia.
  - apply (proj1 (proj2 (proj2
             (verify_revoked_before_expiry Demo.decode ∅ fresh "session.u1"))) _ [] Hdec).
  - apply (proj1 (proj2
             (verify_revoked_before_expiry Demo.decode {[ "session.u1" ]} Demo.t_later
                "session.u1")) _ Hdec).
    set_solver.
Defined.

Lemma verify_reset_token_marks store store' now T subject :
  TokenAuthority.verify_reset_token store now T = (inr subject, store') ->
  ∃ rt, store' !! T = Some rt ∧ TokenAuthority.rt_consumed rt = true.
Proof.
  unfold TokenAuthority.verify_reset_token.
  destruct (store !! T) as [rt|] eqn:Hrt; [|done].
  destruct (TokenAuthority.rt_consumed rt) eqn:Hc; [done|].
  destruct (TokenAuthority.rt_expires_at rt <? now); [done|].
  intros [= <- <-]. eexists. by rewrite lookup_insert_eq.
Qed.

Lemma verify_reset_token_consumed (store : gmap string TokenAuthority.ResetToken) now T rt :
  store !! T = Some rt -> TokenAuthority.rt_consumed rt = true ->
  TokenAuthority.verify_reset_token store now T
  = (inl TokenAuthority.ResetTokenConsumed, store).
Proof. unfold TokenAuthority.verify_reset_token. by intros -> ->. Qed.

Lemma consumed_stays (store : gmap string TokenAuthority.ResetToken) T rt ops :
  store !! T = Some rt -> TokenAuthority.rt_consumed rt = true ->
  T ∉ TokenAuthority.created ops ->
  ∃ rt', TokenAuthority.run ops store !! T = Some rt'
         ∧ TokenAuthority.rt_consumed rt' = true.
Proof.
  revert store rt. induction ops as [|op ops IH]; intros store rt Hrt Hc Hfresh.
  { by exists rt. }
  unfold TokenAuthority.run. simpl. fold (TokenAuthority.run ops).
  destruct op as [t subject now|t now]; simpl in *.
  - apply not_elem_of_cons in Hfresh as [Hne Hfresh].
    apply (IH _ rt); [|done|done].
    unfold TokenAuthority.create_reset_token. by rewrite lookup_insert_ne.
  - unfold TokenAuthority.verify_reset_token.
    destruct (decide (t = T)) as [->|Hne].
    + rewrite Hrt, Hc. simpl. by apply (IH _ rt).
    + destruct (store !! t) as [rt0|] eqn:Ht; simpl; [|by apply (IH _ rt)].
      destruct (TokenAuthority.rt_consumed rt0); simpl; [by apply (IH _ rt)|].
      destruct (TokenAuthority.rt_expires_at rt0 <? now); simpl; [by apply (IH _ rt)|].
      apply (IH _ rt); [|done|done]. by rewrite lookup_insert_ne.
Qed.

(** C8. A successful [verify_reset_token] leaves the token marked
    consumed in the store it returns, and after any further run of
    creations (of other tokens) and verifications, at any times, verifying
    the same token fails [ResetTokenConsumed], whether or not its ten
    minutes have passed. *)
Theorem reset_token_single_use
    (store store' : gmap string TokenAuthority.ResetToken) (now : Z) (T subject : string) :
  TokenAuthority.verify_reset_token store now T = (inr subject, store') ->
  (∃ rt, store' !! T = Some rt ∧ TokenAuthority.rt_consumed rt = true)
  ∧ ∀ ops now',
      T ∉ TokenAuthority.created ops ->
      TokenAuthority.verify_reset_token (TokenAuthority.run ops store') now' T
      = (inl TokenAuthority.ResetTokenConsumed, TokenAuthority.run ops store').
Proof.
  intros (rt & Hrt & Hc)%verify_reset_token_marks.
  split; [by exists rt|]. intros ops now' Hfresh.
  destruct (consumed_stays _ T rt ops Hrt Hc Hfresh) as (rt' & Hrt' & Hc').
  by apply (verify_reset_token_consumed _ _ _ rt').
Qed.

Lemma reset_token_single_use_witness :
  let first :=
    TokenAuthority.verify_reset_token Demo.resets (Demo.t_issue + 1) "reset.1" in
  fst first = inr "u1"
  ∧ fst (TokenAuthority.verify_reset_token
           (TokenAuthority.run
              [TokenAuthority.Verify "reset.1" (Demo.t_issue + 2);
               TokenAuthority.Create "reset.2" "u1" (Demo.t_issue + 3);
               TokenAuthority.Verify "reset.2" (Demo.t_issue + 4)] (snd first))
           (Demo.t_issue + 5) "reset.1")
    = inl TokenAuthority.ResetTokenConsumed.
Proof.
  intros first.
  assert (Hok : fst first = inr "u1") by (by vm_compute).
  split; [exact Hok|].
  assert (Hfirst : first = (inr "u1", snd first)).
  { rewrite <- Hok. apply surjective_pairing. }
  destruct (reset_token_single_use Demo.resets (snd first) (Demo.t_issue + 1)
              "reset.1" "u1" Hfirst) as [_ Hused].
  rewrite Hused; [reflexivity|].
  apply (bool_decide_unpack _). by vm_compute.
Defined.

(** The handler turns every failure of the token into a 400: a second
    [POST /auth/password/reset] with a token that succeeded is refused. *)
Lemma reset_password_refuses_reuse hash_password now now' token pw pw' msg s s' :
  AuthRouter.reset_password hash_password now token pw s = (Returns msg, s') ->
  fst (AuthRouter.reset_password hash_password now' token pw' s')
  = Raises (HTTPException 400 "Invalid or expired token").
Proof.
  unfold AuthRouter.reset_password.
  destruct (TokenAuthority.verify_reset_token (AuthRouter.reset_tokens s) now token)
    as [[e|uid] tokens'] eqn:Hv; [done|].
  case_bool_decide; [done|].
  destruct (AuthRouter.set_password _ _ _); [|done].
  intros [= <- <-]. simpl.
  apply verify_reset_token_marks in Hv as (rt & Hrt & Hc).
  by rewrite (verify_reset_token_consumed _ _ _ rt).
Qed.

(** ** Resolving and deleting *)

Lemma resolve_loop_absent pid moderator_id notes stamp data :
  pid ∉ ids data -> resolve_loop pid moderator_id notes stamp data = (data, None).
Proof.
  induction data as [|r data IH]; simpl; [done|].
  intros [Hr Hdata]%not_elem_of_cons.
  rewrite decide_False by done. by rewrite IH.
Qed.

Lemma resolve_loop_present pid moderator_id notes stamp l1 r l2 :
  pid ∉ ids l1 -> penalty_id (row r) = pid ->
  resolve_loop pid moderator_id notes stamp (l1 ++ r :: l2)
  = (l1 ++ mkRow (set_notes notes (set_status resolved (row r)))
                 (Some moderator_id) (Some stamp) :: l2,
     Some (user_id (row r))).
Proof.
  intros Hl1 Hr. induction l1 as [|r1 l1 IH]; simpl.
  - by rewrite decide_True.
  - apply not_elem_of_cons in Hl1 as [Hr1 Hl1].
    rewrite decide_False by done. by rewrite IH.
Qed.

Lemma find_target_absent pid data : pid ∉ ids data -> find_target pid data = None.
Proof.
  induction data as [|r data IH]; simpl; [done|].
  intros [Hr Hdata]%not_elem_of_cons. rewrite decide_False by done. by apply IH.
Qed.

Lemma find_target_present pid l1 r l2 :
  pid ∉ ids l1 -> penalty_id (row r) = pid ->
  find_target pid (l1 ++ r :: l2) = Some (user_id (row r)).
Proof.
  intros Hl1 Hr. induction l1 as [|r1 l1 IH]; simpl.
  - by rewrite decide_True.
  - apply not_elem_of_cons in Hl1 as [Hr1 Hl1]. rewrite decide_False by done. by apply IH.
Qed.

Lemma filter_other_absent pid data :
  pid ∉ ids data -> filter (fun p => penalty_id (row p) ≠ pid) data = data.
Proof.
  induction data as [|r data IH]; [done|].
  intros [Hr Hdata]%not_elem_of_cons.
  rewrite filter_cons, decide_True by done. by rewrite IH.
Qed.

Lemma filter_other_shorter pid data :
  pid ∈ ids data ->
  (length (filter (fun p => penalty_id (row p) ≠ pid) data) < length data)%nat.
Proof.
  induction data as [|r data IH]; [by intros ?%elem_of_nil|].
  rewrite filter_cons. simpl. destruct (decide (penalty_id (row r) ≠ pid)) as [Hne|Heq].
  - intros [?|Hin]%elem_of_cons; [congruence|]. simpl. apply IH in Hin. lia.
  - intros _. pose proof (length_filter (fun p => penalty_id (row p) ≠ pid) data). lia.
Qed.

Lemma filter_other_gone pid data :
  pid ∉ ids (filter (fun p => penalty_id (row p) ≠ pid) data).
Proof.
  unfold ids. intros (r & Hid & [Hne _]%list_elem_of_filter)%list_elem_of_fmap_1.
  by destruct Hne.
Qed.

(** [resolve_penalty] on a stored identifier: the first row that carries
    it becomes [resolved] with the resolver, the time and the notes, and
    the identifier is taken out of the owner's linked list. *)
Lemma resolve_penalty_known isoformat now pid moderator_id notes st l1 r l2 :
  penalties_json st = l1 ++ r :: l2 -> pid ∉ ids l1 -> penalty_id (row r) = pid ->
  user_id (row r) ≠ "" ->
  resolve_penalty isoformat now pid moderator_id notes st
  = (Returns tt,
     mkState (l1 ++ mkRow (set_notes notes (set_status resolved (row r)))
                          (Some moderator_id) (Some (isoformat now)) :: l2)
             (unlink_users (user_id (row r)) pid (users_active_json st))).
Proof.
  intros Hdata Hl1 Hr Hu.
  unfold resolve_penalty, mbind, M_bind, _load_penalties. rewrite Hdata.
  rewrite resolve_loop_present by done. simpl.
  rewrite bool_decide_eq_false_2 by done. simpl.
  by rewrite unlink_run.
Qed.

(** [delete_penalty] of utils.py removes the rows of the identifier and
    unlinks it from the owner of the first of them. *)
Lemma utils_delete_penalty_known pid st l1 r l2 :
  penalties_json st = l1 ++ r :: l2 -> pid ∉ ids l1 -> penalty_id (row r) = pid ->
  user_id (row r) ≠ "" ->
  delete_penalty pid st
  = (Returns tt,
     mkState (filter (fun p => penalty_id (row p) ≠ pid) (penalties_json st))
             (unlink_users (user_id (row r)) pid (users_active_json st))).
Proof.
  intros Hdata Hl1 Hr Hu.
  unfold delete_penalty, mbind, M_bind, _load_penalties, _save_penalties.
  rewrite Hdata, find_target_present by done. simpl.
  rewrite bool_decide_eq_false_2 by done. simpl.
  by rewrite unlink_run.
Qed.

(** The delete endpoint answers 404 for an identifier that is not stored. *)
Lemma router_delete_unknown pid cu st :
  cu_role cu = "administrator" -> pid ∉ ids (penalties_json st) ->
  Router.delete_penalty pid cu st = (Raises (HTTPException 404 "Penalty not found"), st).
Proof.
  intros Hrole Hpid. unfold Router.delete_penalty.
  rewrite bool_decide_eq_false_2 by (by intros ?).
  unfold mbind, M_bind, _load_penalties.
  rewrite filter_other_absent by done. by rewrite bool_decide_eq_true_2.
Qed.

Lemma resolve_penalty_unknown isoformat now pid moderator_id notes st :
  pid ∉ ids (penalties_json st) ->
  resolve_penalty isoformat now pid moderator_id notes st = (Returns tt, st).
Proof.
  intros Hpid. unfold resolve_penalty, mbind, M_bind, _load_penalties.
  rewrite resolve_loop_absent by done. simpl. by rewrite state_eta.
Qed.

Lemma utils_delete_penalty_unknown pid st :
  pid ∉ ids (penalties_json st) -> delete_penalty pid st = (Returns tt, st).
Proof.
  intros Hpid. unfold delete_penalty, mbind, M_bind, _load_penalties, _save_penalties.
  rewrite find_target_absent, filter_other_absent by done. simpl. by rewrite state_eta.
Qed.

(** C4. The resolve endpoint on an identifier that is not stored: no
    [PenaltyNotFound]; [resolve_penalty] returns normally, the handler
    answers that the penalty was resolved, and the state is as before. *)
Theorem resolve_unknown_reports_success
    (isoformat : Z -> string) (now : Z) (pid : string) (notes : option string)
    (cu : CurrentUser) (st : State) :
  cu_role cu ∈ Router.staff -> pid ∉ ids (penalties_json st) ->
  resolve_penalty isoformat now pid (cu_user_id cu) notes st = (Returns tt, st)
  ∧ Router.resolve_penalty isoformat now pid notes cu st
    = (Returns ("Penalty " +:+ pid +:+ " resolved successfully."), st).
Proof.
  intros Hrole Hpid.
  assert (Hutil : resolve_penalty isoformat now pid (cu_user_id cu) notes st = (Returns tt, st))
    by (by apply resolve_penalty_unknown).
  split; [done|]. unfold Router.resolve_penalty.
  rewrite bool_decide_eq_false_2 by (by intros ?).
  unfold mbind, M_bind. by rewrite Hutil.
Qed.

Lemma resolve_unknown_reports_success_witness :
  Router.resolve_penalty Iso.isoformat Demo.t_later "no-such-id" (Some "lifted")
    Demo.moderator Demo.st1
  = (Returns "Penalty no-such-id resolved successfully.", Demo.st1).
Proof.
  apply (resolve_unknown_reports_success Iso.isoformat Demo.t_later "no-such-id"
           (Some "lifted") Demo.moderator Demo.st1).
  - apply (bool_decide_unpack _). by vm_compute.
  - apply (bool_decide_unpack _). by vm_compute.
Defined.

(** C5. The delete endpoint on a stored identifier removes its rows and
    leaves the user directory as it was: an identifier linked to its
    subject stays linked. *)
Theorem router_delete_keeps_link (pid : string) (cu : CurrentUser) (st : State) :
  cu_role cu = "administrator" -> pid ∈ ids (penalties_json st) ->
  ∃ st',
    Router.delete_penalty pid cu st
      = (Returns ("Penalty " +:+ pid +:+ " deleted successfully."), st')
    ∧ (pid ∉ ids (penalties_json st'))
    ∧ users_active_json st' = users_active_json st
    ∧ ∀ uid, pid ∈ active_penalty_ids (users_active_json st) uid ->
             pid ∈ active_penalty_ids (users_active_json st') uid.
Proof.
  intros Hrole Hpid. eexists. split; [|split; [|split]].
  - unfold Router.delete_penalty.
    rewrite bool_decide_eq_false_2 by (by intros ?).
    unfold mbind, M_bind, _load_penalties, _save_penalties.
    rewrite bool_decide_eq_false_2; [done|].
    pose proof (filter_other_shorter pid _ Hpid). lia.
  - apply filter_other_gone.
  - done.
  - done.
Qed.

Lemma router_delete_keeps_link_witness :
  "p1" ∈ active_penalty_ids (users_active_json Demo.st1) "u1"
  ∧ ∃ st',
      Router.delete_penalty "p1" Demo.admin Demo.st1
        = (Returns "Penalty p1 deleted successfully.", st')
      ∧ penalties_json st' = []
      ∧ "p1" ∈ active_penalty_ids (users_active_json st') "u1".
Proof.
  assert (Hlinked : "p1" ∈ active_penalty_ids (users_active_json Demo.st1) "u1").
  { apply (bool_decide_unpack _). by vm_compute. }
  split; [done|].
  destruct (router_delete_keeps_link "p1" Demo.admin Demo.st1)
    as (st' & Hrun & Hgone & Husers & Hstays).
  - done.
  - apply (bool_decide_unpack _). by vm_compute.
  - exists st'. split; [done|]. split; [|by apply Hstays].
    assert (H : snd (Router.delete_penalty "p1" Demo.admin Demo.st1)
                = mkState [] [mkUser "u1" (Some ["p1"])]) by (by vm_compute).
    rewrite Hrun in H. simpl in H. by rewrite H.
Defined.



(** ** The link between the two collections

    The operations of utils.py keep the collections consistent; the
    delete endpoint, which does not go through [delete_penalty] of
    utils.py, does not. *)

Lemma active_penalty_ids_link uid pid users :
  registered users uid ->
  active_penalty_ids (link_users uid pid users) uid
  = active_penalty_ids users uid ++ [pid].
Proof.
  intros (u0 & Hu0 & Hid). unfold link_users, active_penalty_ids.
  induction users as [|u users IH]; [by apply elem_of_nil in Hu0|]. simpl.
  destruct (decide (u_user_id u = uid)) as [Hu|Hu].
  - simpl. by rewrite !(bool_decide_eq_true_2 _ Hu).
  - apply elem_of_cons in Hu0 as [->|Hu0]; [done|].
    specialize (IH Hu0).
    destruct (link_loop uid pid users) as [users'|]; simpl in *;
      by rewrite !(bool_decide_eq_false_2 _ Hu).
Qed.

(** For a subject without a record the linking loop changes nothing: the
    penalty is stored active and linked nowhere. *)
Lemma link_users_unregistered uid pid users :
  ¬ registered users uid -> link_users uid pid users = users.
Proof.
  unfold link_users, registered. induction users as [|u users IH]; [done|].
  intros Hnone. simpl. rewrite decide_False.
  - assert (Hrest : link_loop uid pid users = None ∨ ∃ us, link_loop uid pid users = Some us)
      by (destruct (link_loop uid pid users); eauto).
    destruct Hrest as [->|[us Hus]]; [done|].
    rewrite Hus in *. simpl in *. f_equal. apply IH.
    intros (u' & Hu' & Hid). apply Hnone. exists u'. split; [by right|done].
  - intros Hid. apply Hnone. exists u. split; [by left|done].
Qed.

Lemma active_penalty_ids_link_other uid pid users uid' :
  uid' ≠ uid ->
  active_penalty_ids (link_users uid pid users) uid' = active_penalty_ids users uid'.
Proof.
  intros Hne. unfold link_users, active_penalty_ids.
  induction users as [|u users IH]; [done|]. simpl.
  destruct (decide (u_user_id u = uid)) as [Hu|Hu].
  - assert (Hu' : u_user_id u ≠ uid') by congruence.
    simpl. by rewrite !(bool_decide_eq_false_2 _ Hu').
  - destruct (link_loop uid pid users) as [users'|]; simpl in *; by case_bool_decide.
Qed.

Lemma ids_split_first pid data :
  pid ∈ ids data ->
  ∃ l1 r l2, data = l1 ++ r :: l2 ∧ (pid ∉ ids l1) ∧ penalty_id (row r) = pid.
Proof.
  induction data as [|r data IH]; [by intros ?%elem_of_nil|].
  destruct (decide (penalty_id (row r) = pid)) as [Hr|Hr].
  - intros _. exists [], r, data. split; [done|]. split; [apply not_elem_of_nil|done].
  - intros [?|Hin]%elem_of_cons; [congruence|].
    destruct (IH Hin) as (l1 & r' & l2 & -> & Hl1 & Hr').
    exists (r :: l1), r', l2. split; [done|]. split; [|done].
    apply not_elem_of_cons. split; [congruence|done].
Qed.

Lemma NoDup_ids_filter (P : Row -> Prop) `{!∀ r, Decision (P r)} data :
  NoDup (ids data) -> NoDup (ids (filter P data)).
Proof.
  unfold ids. induction data as [|r data IH]; [done|].
  rewrite fmap_cons. intros [Hr Hdata]%NoDup_cons.
  rewrite filter_cons. case_decide; [|by apply IH].
  rewrite fmap_cons. apply NoDup_cons. split; [|by apply IH].
  intros (r' & Hid & [_ Hr']%list_elem_of_filter)%list_elem_of_fmap_1.
  apply Hr. rewrite Hid.
  by apply (list_elem_of_fmap_2 (fun r => penalty_id (row r))).
Qed.

Lemma row_by_id data r r' :
  NoDup (ids data) -> r ∈ data -> r' ∈ data ->
  penalty_id (row r) = penalty_id (row r') -> r = r'.
Proof. intros Hnd Hr Hr' Hid. by eapply (NoDup_fmap_eq _ data). Qed.

Lemma unlink_membership uid pid users uid' x :
  x ≠ pid ->
  x ∈ active_penalty_ids (unlink_users uid pid users) uid'
  ↔ x ∈ active_penalty_ids users uid'.
Proof.
  intros Hne. destruct (decide (uid' = uid)) as [->|Hu].
  - rewrite active_penalty_ids_unlink. split.
    + apply list_remove_subseteq.
    + by apply list_remove_other.
  - by rewrite active_penalty_ids_unlink_other.
Qed.

Lemma unlink_subseteq uid pid users uid' x :
  x ∈ active_penalty_ids (unlink_users uid pid users) uid' ->
  x ∈ active_penalty_ids users uid'.
Proof.
  destruct (decide (uid' = uid)) as [->|Hu].
  - rewrite active_penalty_ids_unlink. apply list_remove_subseteq.
  - by rewrite active_penalty_ids_unlink_other.
Qed.

Lemma unlink_NoDup uid pid users uid' :
  NoDup (active_penalty_ids users uid') ->
  NoDup (active_penalty_ids (unlink_users uid pid users) uid').
Proof.
  intros Hnd. destruct (decide (uid' = uid)) as [->|Hu].
  - rewrite active_penalty_ids_unlink. by apply list_remove_NoDup.
  - by rewrite active_penalty_ids_unlink_other.
Qed.

Lemma unlink_removed uid pid users :
  NoDup (active_penalty_ids users uid) ->
  pid ∉ active_penalty_ids (unlink_users uid pid users) uid.
Proof. intros Hnd. rewrite active_penalty_ids_unlink. by apply list_remove_NoDup. Qed.

Lemma rows_of_subject uid data :
  Forall (fun p => user_id p = uid) (row <$> rows_of uid data).
Proof.
  apply Forall_forall.
  by intros p (r & -> & [Hu _]%list_elem_of_filter)%list_elem_of_fmap_1.
Qed.

(** Lazy expiry keeps the collections consistent. *)
Lemma consistent_get_penalties_for_user fromisoformat now uid st :
  consistent st -> consistent (snd (get_penalties_for_user fromisoformat now uid st)).
Proof.
  unfold consistent, linked_iff_active.
  intros (Hids & Hlists & Husers & Hiff & Hback).
  rewrite get_penalties_for_user_run. simpl. rewrite settle_rows_map.
  change (penalty_id <$> filter _ (row <$> rows_of uid (penalties_json st)))
    with (due_ids fromisoformat now uid (penalties_json st)).
  set (mine := row <$> rows_of uid (penalties_json st)).
  pose proof (rows_of_subject uid (penalties_json st)) as Hmine. fold mine in Hmine.
  assert (Hsame : ∀ uid', uid' ≠ uid ->
            active_penalty_ids
              (settle_users fromisoformat now mine (users_active_json st)) uid'
            = active_penalty_ids (users_active_json st) uid').
  { intros uid' Hne. by apply (settle_users_other _ _ uid). }
  assert (Hmy : active_penalty_ids
                  (settle_users fromisoformat now mine (users_active_json st)) uid
                = drop_due fromisoformat now mine
                    (active_penalty_ids (users_active_json st) uid)).
  { by apply settle_users_active. }
  destruct (drop_due_NoDup fromisoformat now mine _ (Hlists uid)) as [Hnd Hout].
  split; [|split; [|split; [|split]]].
  - by rewrite ids_expire_row.
  - intros uid'. destruct (decide (uid' = uid)) as [->|Hne].
    + by rewrite Hmy.
    + by rewrite Hsame.
  - intros r' (r & -> & Hr)%list_elem_of_fmap_1. rewrite expire_row_user_id.
    by apply Husers.
  - intros r' (r & -> & Hr)%list_elem_of_fmap_1.
    rewrite expire_row_user_id, expire_row_penalty_id.
    destruct (decide (user_id (row r) = uid)) as [Hu|Hu].
    + rewrite Hu, Hmy.
      destruct (is_due fromisoformat now (row r)) eqn:Hd.
      * assert (Hin : penalty_id (row r) ∈ due_ids fromisoformat now uid (penalties_json st)) by (by apply due_ids_intro).
        unfold expire_row. rewrite bool_decide_eq_true_2 by done. simpl.
        split; [|done]. intros Hlinked. exfalso.
        apply (Hout (row r)); [|done|done].
        apply list_elem_of_fmap_2. by apply list_elem_of_filter.
      * rewrite (expire_row_untouched fromisoformat now uid) by
          (try done; intros [_ Hd']; congruence).
        rewrite <- (Hiff r Hr), Hu. split.
        -- apply drop_due_subseteq.
        -- intros Hlinked. apply drop_due_keeps; [done|].
           intros p (r2 & -> & [Hu2 Hr2]%list_elem_of_filter)%list_elem_of_fmap_1 Hd2 Hid.
           assert (r2 = r) as -> by (by apply (row_by_id (penalties_json st))).
           congruence.
    + rewrite (expire_row_untouched fromisoformat now uid) by (try done; by intros [? _]).
      rewrite Hsame by done. by apply Hiff.
  - intros uid' pid Hpid.
    assert (Hold : pid ∈ active_penalty_ids (users_active_json st) uid').
    { destruct (decide (uid' = uid)) as [->|Hne].
      - rewrite Hmy in Hpid. by eapply drop_due_subseteq.
      - by rewrite Hsame in Hpid. }
    destruct (Hback uid' pid Hold) as (r & Hr & Hid & Hu).
    exists (expire_row (due_ids fromisoformat now uid (penalties_json st)) r). split; [by apply list_elem_of_fmap_2|].
    by rewrite expire_row_penalty_id, expire_row_user_id.
Qed.

(** Resolving keeps the collections consistent. *)
Lemma consistent_resolve_penalty isoformat now pid moderator_id notes st :
  consistent st ->
  consistent (snd (resolve_penalty isoformat now pid moderator_id notes st)).
Proof.
  destruct (decide (pid ∈ ids (penalties_json st))) as [Hpid|Hpid];
    [|by rewrite resolve_penalty_unknown].
  unfold consistent, linked_iff_active.
  intros (Hids & Hlists & Husers & Hiff & Hback).
  destruct (ids_split_first pid _ Hpid) as (l1 & r & l2 & Hdata & Hl1 & Hr).
  assert (Hrin : r ∈ penalties_json st).
  { rewrite Hdata. apply elem_of_app. right. by left. }
  rewrite (resolve_penalty_known isoformat now pid moderator_id notes st l1 r l2)
    by (try done; by apply Husers).
  simpl.
  set (r' := mkRow (set_notes notes (set_status resolved (row r)))
                   (Some moderator_id) (Some (isoformat now))).
  assert (Hin' : ∀ x, x ∈ l1 ++ r' :: l2 ->
            x = r' ∨ (x ∈ penalties_json st ∧ penalty_id (row x) ≠ pid)).
  { intros x [Hx|[->|Hx]%elem_of_cons]%elem_of_app; [right|by left|right].
    - assert (Hxin : x ∈ penalties_json st) by (rewrite Hdata; apply elem_of_app; by left).
      split; [done|]. intros Hid. apply Hl1. rewrite <- Hid.
      by apply (list_elem_of_fmap_2 (fun r => penalty_id (row r))).
    - assert (Hxin : x ∈ penalties_json st).
      { rewrite Hdata. apply elem_of_app. right. by right. }
      split; [done|]. intros Hid.
      assert (x = r) as -> by (apply (row_by_id (penalties_json st)); congruence).
      rewrite Hdata in Hids. unfold ids in Hids.
      rewrite fmap_app, fmap_cons in Hids.
      apply NoDup_app in Hids as (_ & _ & [Hnot _]%NoDup_cons).
      apply Hnot. by apply (list_elem_of_fmap_2 (fun r => penalty_id (row r))). }
  split; [|split; [|split; [|split]]].
  - rewrite Hdata in Hids. unfold ids in *. by rewrite fmap_app, fmap_cons in *.
  - intros uid. by apply unlink_NoDup.
  - intros x [->|[Hx _]]%Hin'; [exact (Husers r Hrin)|by apply Husers].
  - intros x [->|[Hx Hne]]%Hin'.
    + simpl. rewrite Hr. split; [|done]. intros Hlinked.
      by apply unlink_removed in Hlinked.
    + rewrite unlink_membership by done. by apply Hiff.
  - intros uid x Hx%unlink_subseteq.
    destruct (Hback uid x Hx) as (r0 & Hr0 & Hid & Hu).
    rewrite Hdata in Hr0.
    apply elem_of_app in Hr0 as [Hr0|[->|Hr0]%elem_of_cons].
    + exists r0. split; [apply elem_of_app; by left|done].
    + exists r'. split; [apply elem_of_app; right; by left|done].
    + exists r0. split; [apply elem_of_app; right; by right|done].
Qed.

(** Deleting through utils.py keeps the collections consistent. *)
Lemma consistent_utils_delete_penalty pid st :
  consistent st -> consistent (snd (delete_penalty pid st)).
Proof.
  destruct (decide (pid ∈ ids (penalties_json st))) as [Hpid|Hpid];
    [|by rewrite utils_delete_penalty_unknown].
  unfold consistent, linked_iff_active.
  intros (Hids & Hlists & Husers & Hiff & Hback).
  destruct (ids_split_first pid _ Hpid) as (l1 & r & l2 & Hdata & Hl1 & Hr).
  assert (Hrin : r ∈ penalties_json st).
  { rewrite Hdata. apply elem_of_app. right. by left. }
  rewrite (utils_delete_penalty_known pid st l1 r l2) by (try done; by apply Husers).
  simpl.
  split; [|split; [|split; [|split]]].
  - by apply NoDup_ids_filter.
  - intros uid. by apply unlink_NoDup.
  - intros x [_ Hx]%list_elem_of_filter. by apply Husers.
  - intros x [Hne Hx]%list_elem_of_filter.
    rewrite unlink_membership by done. by apply Hiff.
  - intros uid x Hx.
    destruct (Hback uid x (unlink_subseteq _ _ _ _ _ Hx)) as (r0 & Hr0 & Hid & Hu).
    exists r0. split; [|done]. apply list_elem_of_filter. split; [|done].
    intros Hpid0.
    assert (r0 = r) as -> by (apply (row_by_id (penalties_json st)); congruence).
    subst uid x. rewrite Hr in Hx. by apply unlink_removed in Hx.
Qed.

(** Storing a new active penalty, under an identifier not yet stored and
    for a registered subject, keeps the collections consistent. *)
Lemma consistent_add_penalty p st :
  consistent st ->
  penalty_id p ∉ ids (penalties_json st) -> status p = active ->
  user_id p ≠ "" -> registered (users_active_json st) (user_id p) ->
  consistent (snd (add_penalty p st)).
Proof.
  unfold consistent, linked_iff_active.
  intros (Hids & Hlists & Husers & Hiff & Hback) Hfresh Hact Hu Hreg.
  rewrite add_penalty_run. simpl.
  assert (Hunlinked : ∀ uid, penalty_id p ∉ active_penalty_ids (users_active_json st) uid).
  { intros uid Hin. destruct (Hback uid _ Hin) as (r & Hr & Hid & _).
    apply Hfresh. rewrite <- Hid.
    by apply (list_elem_of_fmap_2 (fun r => penalty_id (row r))). }
  assert (Hmem : ∀ uid x,
            x ∈ active_penalty_ids
                  (link_users (user_id p) (penalty_id p) (users_active_json st)) uid
            ↔ x ∈ active_penalty_ids (users_active_json st) uid
              ∨ (uid = user_id p ∧ x = penalty_id p)).
  { intros uid x. destruct (decide (uid = user_id p)) as [->|Hne].
    - rewrite active_penalty_ids_link by done. rewrite elem_of_app, list_elem_of_singleton.
      split; [intros [?| ->]; [by left|by right]|intros [?|[_ ->]]; [by left|by right]].
    - rewrite active_penalty_ids_link_other by done.
      split; [by left|]. by intros [?|[? _]]. }
  split; [|split; [|split; [|split]]].
  - unfold ids in *. rewrite fmap_app. apply NoDup_app. split; [done|].
    split; [|apply NoDup_singleton].
    intros x Hx ->%list_elem_of_singleton. by apply Hfresh.
  - intros uid. destruct (decide (uid = user_id p)) as [->|Hne].
    + rewrite active_penalty_ids_link by done. apply NoDup_app. split; [done|].
      split; [|apply NoDup_singleton].
      intros x Hx ->%list_elem_of_singleton. by apply (Hunlinked (user_id p)).
    + by rewrite active_penalty_ids_link_other.
  - intros x [Hx|Hx%list_elem_of_singleton]%elem_of_app; [by apply Husers|by subst x].
  - intros x [Hx|Hx%list_elem_of_singleton]%elem_of_app; [|subst x].
    + rewrite Hmem, <- (Hiff x Hx). split; [|by left].
      intros [?|[_ Hid]]; [done|]. destruct Hfresh. rewrite <- Hid.
      by apply (list_elem_of_fmap_2 (fun r => penalty_id (row r))).
    + simpl. rewrite Hmem. split; [done|]. intros _. by right.
  - intros uid x [Hx|[-> ->]]%Hmem.
    + destruct (Hback uid x Hx) as (r & Hr & Hid & Hu').
      exists r. split; [apply elem_of_app; by left|done].
    + exists (dict p). split; [apply elem_of_app; right; by left|done].
Qed.

Lemma issue_penalty_returns isoformat now stamp uuid payload cu st p st' :
  Router.issue_penalty isoformat now stamp uuid payload cu st = (Returns p, st') ->
  st' = snd (add_penalty p st)
  ∧ penalty_id p = uuid ∧ status p = active ∧ user_id p = pc_user_id payload.
Proof.
  unfold Router.issue_penalty. case_bool_decide; [done|].
  unfold mbind, M_bind, lift.
  destruct (calculate_expiry _ _ _ _ _) as [expires|e]; [|done].
  rewrite add_penalty_run. intros [= <- <-]. by rewrite add_penalty_run.
Qed.

(** Every state reached from a consistent one by these operations is
    consistent. *)
Lemma consistent_ledger_steps isoformat fromisoformat st st' :
  consistent st -> rtc (ledger_step isoformat fromisoformat) st st' -> consistent st'.
Proof.
  intros Hc Hsteps. induction Hsteps as [st|st st1 st' Hstep _ IH]; [done|].
  apply IH. clear IH.
  destruct Hstep as [now stamp uuid payload cu st p st1 Hfresh Hu Hreg Hrun
                    |now uid st|now pid moderator_id notes st|pid st].
  - apply issue_penalty_returns in Hrun as (-> & Hid & Hact & Huid).
    apply consistent_add_penalty; [done| | | |]; by rewrite ?Hid, ?Huid.
  - by apply consistent_get_penalties_for_user.
  - by apply consistent_resolve_penalty.
  - by apply consistent_utils_delete_penalty.
Qed.

(** A directory in which nobody has a linked penalty, with an empty
    store, is consistent. *)
Lemma consistent_initial users :
  (∀ uid, active_penalty_ids users uid = []) -> consistent (mkState [] users).
Proof.
  intros Hnone. unfold consistent, linked_iff_active. simpl.
  split; [constructor|]. split; [intros uid; rewrite Hnone; constructor|].
  split; [by intros r ?%elem_of_nil|]. split; [by intros r ?%elem_of_nil|].
  intros uid pid. rewrite Hnone. by intros ?%elem_of_nil.
Qed.

(** What the delete endpoint leaves is not consistent when the penalty
    was linked. *)
Lemma router_delete_inconsistent pid cu st uid :
  cu_role cu = "administrator" -> pid ∈ ids (penalties_json st) ->
  pid ∈ active_penalty_ids (users_active_json st) uid ->
  ¬ consistent (snd (Router.delete_penalty pid cu st)).
Proof.
  intros Hrole Hpid Hlinked (_ & _ & _ & _ & Hback).
  unfold Router.delete_penalty in Hback.
  rewrite bool_decide_eq_false_2 in Hback by (by intros ?).
  unfold mbind, M_bind, _load_penalties, _save_penalties in Hback.
  rewrite bool_decide_eq_false_2 in Hback
    by (pose proof (filter_other_shorter pid _ Hpid); lia).
  simpl in Hback.
  destruct (Hback uid pid Hlinked) as (r & [Hne _]%list_elem_of_filter & Hid & _).
  by destruct Hne.
Qed.

(** C1. From the consistent state with one registered subject, issuing a
    penalty gives a consistent state in which its identifier is linked;
    the delete endpoint then takes the penalty out of the store and
    leaves its identifier in the subject's list, a state that is not
    consistent, where [delete_penalty] of utils.py removes both and stays
    consistent. *)
Theorem router_delete_leaves_dangling_link :
  consistent Demo.st0
  ∧ Router.issue_penalty Iso.isoformat Demo.t_issue Demo.t_issue "p1" Demo.spam Demo.admin Demo.st0
    = (Returns Demo.p1, Demo.st1)
  ∧ consistent Demo.st1
  ∧ Router.delete_penalty "p1" Demo.admin Demo.st1
    = (Returns "Penalty p1 deleted successfully.",
       mkState [] [mkUser "u1" (Some ["p1"])])
  ∧ ¬ consistent (mkState [] [mkUser "u1" (Some ["p1"])])
  ∧ delete_penalty "p1" Demo.st1
    = (Returns tt, mkState [] [mkUser "u1" (Some [])])
  ∧ consistent (mkState [] [mkUser "u1" (Some [])]).
Proof.
  assert (Hst0 : consistent Demo.st0).
  { apply consistent_initial. intros uid. unfold active_penalty_ids. simpl.
    by case_bool_decide. }
  assert (Hst1 : consistent Demo.st1).
  { change Demo.st1 with (snd (add_penalty Demo.p1 Demo.st0)).
    apply consistent_add_penalty; [done| |reflexivity|by vm_compute|].
    - apply not_elem_of_nil.
    - exists (mkUser "u1" (Some [])). split; [by left|done]. }
  split; [done|]. split; [by vm_compute|]. split; [done|].
  split; [by vm_compute|]. split; [|split; [by vm_compute|done]].
  intros (_ & _ & _ & _ & Hback).
  destruct (Hback "u1" "p1") as (r & Hr & _); [|by apply elem_of_nil in Hr].
  apply (bool_decide_unpack _). by vm_compute.
Qed.


(** * Further properties of the penalty ledger *)

Lemma resolve_penalty_returns isoformat now pid moderator_id notes st :
  ∃ st', resolve_penalty isoformat now pid moderator_id notes st = (Returns tt, st').
Proof.
  unfold resolve_penalty, mbind, M_bind, _load_penalties, _save_penalties.
  destruct (resolve_loop pid moderator_id notes (isoformat now) (penalties_json st))
    as [data' [uid|]]; simpl; [|by eexists].
  destruct (bool_decide (uid = "")); simpl; [by eexists|].
  rewrite unlink_run. by eexists.
Qed.

(** X1. An endpoint of router.py that raises leaves both collections as
    they were, and raises nothing but: 403 for a caller without the
    role; [OverflowError] when the expiry date of an issuance cannot be
    built; 404 from the delete endpoint. [GET /penalties/me] never
    raises. *)
Theorem penalty_endpoints_fail_cleanly
    (isoformat : Z -> string) (fromisoformat : string -> outcome Time.parsed)
    (now stamp : Z) (uuid pid uid : string) (notes : option string)
    (payload : PenaltyCreate) (cu : CurrentUser) (st : State) :
  let denied := HTTPException 403 "Access denied" in
  (∀ e st', Router.list_all_penalties cu st = (Raises e, st') -> st' = st ∧ e = denied)
  ∧ (∀ e st', Router.get_my_penalties fromisoformat now cu st ≠ (Raises e, st'))
  ∧ (∀ e st', Router.get_user_penalties fromisoformat now uid cu st = (Raises e, st') ->
       st' = st ∧ e = denied)
  ∧ (∀ e st', Router.issue_penalty isoformat now stamp uuid payload cu st = (Raises e, st') ->
       st' = st ∧ (e = denied ∨ e = OverflowError))
  ∧ (∀ e st', Router.resolve_penalty isoformat now pid notes cu st = (Raises e, st') ->
       st' = st ∧ e = denied)
  ∧ (∀ e st', Router.delete_penalty pid cu st = (Raises e, st') ->
       st' = st ∧ (e = HTTPException 403 "Admins only"
                   ∨ e = HTTPException 404 "Penalty not found")).
Proof.
  intros denied. split; [|split; [|split; [|split; [|split]]]]; intros e st'.
  - unfold Router.list_all_penalties. case_bool_decide; [|done].
    by intros [= <- <-].
  - unfold Router.get_my_penalties. by rewrite get_penalties_for_user_run.
  - unfold Router.get_user_penalties. case_bool_decide.
    + by intros [= <- <-].
    + by rewrite get_penalties_for_user_run.
  - unfold Router.issue_penalty. case_bool_decide.
    + intros [= <- <-]. split; [done|by left].
    + unfold mbind, M_bind, lift.
      destruct (calculate_expiry _ _ _ _ _) as [expires|e0] eqn:Hexp.
      * by rewrite add_penalty_run.
      * intros [= <- <-]. split; [done|]. right.
        unfold calculate_expiry in Hexp.
        assert (Hplus : ∀ d x, obind (Time.plus_days now d)
                  (fun t => Returns (Some (isoformat t))) = Raises x -> x = OverflowError).
        { intros d x. unfold Time.plus_days, Time.timedelta_days, Time.add.
          destruct (Z.abs d <=? 999999999); simpl; [|by intros [= <-]].
          destruct (Time.in_range (now + d * Time.us_per_day)); simpl; [done|].
          by intros [= <-]. }
        cbv zeta in Hexp.
        repeat match type of Hexp with
        | context [match ?x with _ => _ end] => destruct x; try done
        end; by apply Hplus in Hexp.
  - unfold Router.resolve_penalty. case_bool_decide.
    + by intros [= <- <-].
    + unfold mbind, M_bind.
      by destruct (resolve_penalty_returns isoformat now pid (cu_user_id cu) notes st)
        as [st1 ->].
  - unfold Router.delete_penalty. case_bool_decide.
    + intros [= <- <-]. split; [done|by left].
    + unfold mbind, M_bind, _load_penalties, _save_penalties.
      case_bool_decide; [|done]. intros [= <- <-]. split; [done|by right].
Qed.

Lemma penalty_endpoints_fail_cleanly_witness :
  Router.delete_penalty "no-such-id" Demo.admin Demo.st1
    = (Raises (HTTPException 404 "Penalty not found"), Demo.st1)
  ∧ snd (Router.issue_penalty Iso.isoformat Demo.t_issue Demo.t_issue "p2"
           (mkPenaltyCreate "u1" suspension severe "Abuse" None (Some 4000000))
           Demo.admin Demo.st1) = Demo.st1.
Proof.
  destruct (penalty_endpoints_fail_cleanly Iso.isoformat Iso.fromisoformat
              Demo.t_issue Demo.t_issue "p2" "no-such-id" "u1" None
              (mkPenaltyCreate "u1" suspension severe "Abuse" None (Some 4000000))
              Demo.admin Demo.st1) as (_ & _ & _ & Hissue & _ & Hdelete).
  split.
  - by vm_compute.
  - destruct (Hissue OverflowError
                (snd (Router.issue_penalty Iso.isoformat Demo.t_issue Demo.t_issue "p2"
                        (mkPenaltyCreate "u1" suspension severe "Abuse" None (Some 4000000))
                        Demo.admin Demo.st1))) as [Hst _]; [by vm_compute|].
    exact Hst.
Defined.

(** X2. A caller who is neither administrator nor moderator changes
    nothing through the list, per-user, issue, resolve and delete
    endpoints; through [GET /penalties/me] the only change is the lazy
    expiry of the caller's own due penalties: the stored identifiers stay,
    rows of other subjects and rows that are not due stay as they are
    (identifiers distinct), and other subjects' links are untouched. *)
Theorem caller_without_role_expires_only_own
    (isoformat : Z -> string) (fromisoformat : string -> outcome Time.parsed)
    (now stamp : Z) (uuid pid uid : string) (notes : option string)
    (payload : PenaltyCreate) (cu : CurrentUser) (st : State) :
  cu_role cu ∉ Router.staff ->
  NoDup (ids (penalties_json st)) ->
  snd (Router.list_all_penalties cu st) = st
  ∧ snd (Router.get_user_penalties fromisoformat now uid cu st) = st
  ∧ snd (Router.issue_penalty isoformat now stamp uuid payload cu st) = st
  ∧ snd (Router.resolve_penalty isoformat now pid notes cu st) = st
  ∧ snd (Router.delete_penalty pid cu st) = st
  ∧ let st' := snd (Router.get_my_penalties fromisoformat now cu st) in
    ids (penalties_json st') = ids (penalties_json st)
    ∧ (∀ r, r ∈ penalties_json st ->
            user_id (row r) ≠ cu_user_id cu ∨ is_due fromisoformat now (row r) = false ->
            r ∈ penalties_json st')
    ∧ (∀ uid', uid' ≠ cu_user_id cu ->
            active_penalty_ids (users_active_json st') uid'
            = active_penalty_ids (users_active_json st) uid').
Proof.
  intros Hrole Hnd.
  assert (Hadmin : cu_role cu ≠ "administrator").
  { intros Heq. apply Hrole. rewrite Heq. by left. }
  unfold Router.list_all_penalties, Router.get_user_penalties, Router.issue_penalty,
    Router.resolve_penalty, Router.delete_penalty, Router.get_my_penalties.
  rewrite !(bool_decide_eq_true_2 (cu_role cu ∉ Router.staff)) by done.
  rewrite (bool_decide_eq_true_2 (cu_role cu ≠ "administrator")) by done.
  do 5 (split; [done|]).
  cbv zeta. split; [|split].
  - by rewrite get_penalties_for_user_rows, ids_expire_row.
  - intros r Hr Hwhy. rewrite get_penalties_for_user_rows.
    rewrite <- (expire_row_untouched fromisoformat now (cu_user_id cu) (penalties_json st) r);
      [by apply list_elem_of_fmap_2|done|done|].
    intros [Hu Hd]. destruct Hwhy as [Hne|Hnot]; [done|congruence].
  - intros uid' Hne. rewrite get_penalties_for_user_run. simpl.
    apply (settle_users_other _ _ (cu_user_id cu)); [apply rows_of_subject|done].
Qed.

Lemma caller_without_role_expires_only_own_witness :
  let member := mkCurrentUser "u2" "member" in
  snd (Router.delete_penalty "p1" member Demo.st_odd) = Demo.st_odd
  ∧ dict Demo.p1 ∈ penalties_json
      (snd (Router.get_my_penalties Iso.fromisoformat Demo.t_later member Demo.st_odd)).
Proof.
  intros member.
  destruct (caller_without_role_expires_only_own Iso.isoformat Iso.fromisoformat
              Demo.t_later Demo.t_later "x" "p1" "u1" None Demo.spam member Demo.st_odd)
    as (_ & _ & _ & _ & Hdel & _ & Hrows & _).
  - apply (bool_decide_unpack _). by vm_compute.
  - apply (bool_decide_unpack _). by vm_compute.
  - split; [exact Hdel|]. apply Hrows.
    + right. by left.
    + left. by vm_compute.
Defined.


Lemma resolve_loop_map pid moderator_id notes stamp data :
  NoDup (ids data) ->
  fst (resolve_loop pid moderator_id notes stamp data)
  = (fun x => if decide (penalty_id (row x) = pid)
              then resolve_row moderator_id notes stamp x else x) <$> data.
Proof.
  unfold ids. induction data as [|r data IH]; [done|].
  rewrite fmap_cons. intros [Hr Hdata]%NoDup_cons. simpl.
  destruct (decide (penalty_id (row r) = pid)) as [Hid|Hid]; simpl.
  - f_equal. transitivity (id <$> data); [by rewrite list_fmap_id|].
    apply list_fmap_ext. intros i x Hx. rewrite decide_False; [done|].
    intros Hx'. apply Hr. rewrite Hid, <- Hx'.
    apply (list_elem_of_fmap_2 (fun r => penalty_id (row r))).
    by eapply list_elem_of_lookup_2.
  - specialize (IH Hdata).
    destruct (resolve_loop pid moderator_id notes stamp data) as [rest target].
    simpl in *. by rewrite IH.
Qed.

Lemma find_target_unique pid data r :
  NoDup (ids data) -> r ∈ data -> penalty_id (row r) = pid ->
  find_target pid data = Some (user_id (row r)).
Proof.
  intros Hnd Hr Hid.
  assert (Hin : pid ∈ ids data).
  { rewrite <- Hid. by apply (list_elem_of_fmap_2 (fun r => penalty_id (row r))). }
  destruct (ids_split_first pid data Hin) as (l1 & r0 & l2 & Hdata & Hl1 & Hr0).
  assert (r0 = r) as ->.
  { apply (row_by_id data); [done| |done|congruence].
    rewrite Hdata. apply elem_of_app. right. by left. }
  rewrite Hdata. by apply find_target_present.
Qed.

Lemma resolve_loop_target pid moderator_id notes stamp data :
  snd (resolve_loop pid moderator_id notes stamp data) = find_target pid data.
Proof.
  induction data as [|r data IH]; [done|]. simpl.
  destruct (decide (penalty_id (row r) = pid)); simpl; [done|].
  by destruct (resolve_loop pid moderator_id notes stamp data).
Qed.

(** X3. [resolve_penalty] on a stored identifier, whatever the status of
    the penalty (identifiers distinct): the row of that identifier gets
    status [resolved], the notes given, the resolver and the time; every
    other row is as before; no link to another identifier changes. When
    the subject of the penalty is not the empty string, the identifier is
    out of its subject's list (a list without repetitions); when it is
    the empty string, [if target_user_id:] skips the unlinking and the
    directory is left as it was, the link included. *)
Theorem resolve_penalty_marks_and_unlinks
    (isoformat : Z -> string) (now : Z) (pid moderator_id : string)
    (notes : option string) (st : State) (r : Row) :
  NoDup (ids (penalties_json st)) ->
  r ∈ penalties_json st -> penalty_id (row r) = pid ->
  ∃ st',
    resolve_penalty isoformat now pid moderator_id notes st = (Returns tt, st')
    ∧ penalties_json st'
      = (fun x => if decide (penalty_id (row x) = pid)
                  then resolve_row moderator_id notes (isoformat now) x else x)
        <$> penalties_json st
    ∧ (user_id (row r) ≠ "" ->
       NoDup (active_penalty_ids (users_active_json st) (user_id (row r))) ->
       pid ∉ active_penalty_ids (users_active_json st') (user_id (row r)))
    ∧ (user_id (row r) = "" -> users_active_json st' = users_active_json st)
    ∧ (∀ uid x, x ≠ pid ->
         x ∈ active_penalty_ids (users_active_json st') uid
         ↔ x ∈ active_penalty_ids (users_active_json st) uid).
Proof.
  intros Hnd Hr Hid.
  pose proof (resolve_loop_map pid moderator_id notes (isoformat now) _ Hnd) as Hmap.
  pose proof (resolve_loop_target pid moderator_id notes (isoformat now)
                (penalties_json st)) as Htarget.
  rewrite (find_target_unique pid _ r) in Htarget by done.
  unfold resolve_penalty, mbind, M_bind, _load_penalties, _save_penalties.
  destruct (resolve_loop pid moderator_id notes (isoformat now) (penalties_json st))
    as [data' target]. simpl in *. subst data' target. simpl.
  case_bool_decide as Hu; simpl.
  - eexists. split; [done|]. simpl. split; [done|]. split; [done|]. by split.
  - rewrite unlink_run. simpl.
    eexists. split; [done|]. simpl. split; [done|]. split; [|split].
    + intros _ Hlist. by apply unlink_removed.
    + done.
    + intros uid x Hne. by apply unlink_membership.
Qed.

Lemma resolve_penalty_marks_and_unlinks_witness :
  let e1 := mkPenalty "" review_ban minor "Spam" None "e1" "adm1"
              "2021-07-30T01:02:03.000001" None active in
  let nameless := mkState [dict e1] [mkUser "" (Some ["e1"])] in
  (∃ st',
    resolve_penalty Iso.isoformat Demo.t_later "p1" "mod1" (Some "lifted") Demo.st_odd
      = (Returns tt, st')
    ∧ penalties_json st'
      = [dict Demo.odd;
         mkRow (set_notes (Some "lifted") (set_status resolved Demo.p1))
               (Some "mod1") (Some "2021-12-31T23:59:59")]
    ∧ ("p1" ∉ active_penalty_ids (users_active_json st') "u1")
    ∧ "p0" ∈ active_penalty_ids (users_active_json st') "u1")
  ∧ ∃ st',
      resolve_penalty Iso.isoformat Demo.t_later "e1" "mod1" None nameless
        = (Returns tt, st')
      ∧ users_active_json st' = [mkUser "" (Some ["e1"])].
Proof.
  intros e1 nameless. split; [|
    destruct (resolve_penalty_marks_and_unlinks Iso.isoformat Demo.t_later "e1" "mod1"
                None nameless (dict e1)) as (st' & Hrun & _ & _ & Hkept & _);
      [apply NoDup_singleton|by left|done|];
    exists st'; split; [done|]; by apply Hkept].
  destruct (resolve_penalty_marks_and_unlinks Iso.isoformat Demo.t_later "p1" "mod1"
              (Some "lifted") Demo.st_odd (dict Demo.p1))
    as (st' & Hrun & Hrows & Hout & _ & Hrest).
  - apply (bool_decide_unpack _). by vm_compute.
  - right. by left.
  - done.
  - exists st'. split; [done|]. split; [rewrite Hrows; by vm_compute|]. split.
    + apply Hout; [by vm_compute|]. apply (bool_decide_unpack _). by vm_compute.
    + apply Hrest; [by vm_compute|]. apply (bool_decide_unpack _). by vm_compute.
Defined.

Lemma utils_delete_penalty_run pid st :
  delete_penalty pid st
  = (Returns tt,
     mkState (filter (fun p => penalty_id (row p) ≠ pid) (penalties_json st))
       match find_target pid (penalties_json st) with
       | Some uid =>
           if bool_decide (uid = "") then users_active_json st
           else unlink_users uid pid (users_active_json st)
       | None => users_active_json st
       end).
Proof.
  unfold delete_penalty, mbind, M_bind, _load_penalties, _save_penalties.
  destruct (find_target pid (penalties_json st)) as [uid|] eqn:Ht; simpl; [|done].
  case_bool_decide as Hu; simpl; [done|]. by rewrite unlink_run.
Qed.

(** X4. [delete_penalty] of utils.py never raises: it removes every row
    of the identifier and keeps the others in order; an identifier that is
    not stored leaves the state as it is; no link to another identifier
    changes. For a stored penalty (identifiers distinct) whose subject is
    not the empty string, the identifier is out of its subject's list (a
    list without repetitions); for one whose subject is the empty string,
    [if target_user_id:] skips the unlinking and the directory is left as
    it was, the link included. *)
Theorem utils_delete_penalty_removes_and_unlinks (pid : string) (st : State) :
  ∃ st',
    delete_penalty pid st = (Returns tt, st')
    ∧ penalties_json st'
      = filter (fun p => penalty_id (row p) ≠ pid) (penalties_json st)
    ∧ (pid ∉ ids (penalties_json st) -> st' = st)
    ∧ (∀ uid x, x ≠ pid ->
         x ∈ active_penalty_ids (users_active_json st') uid
         ↔ x ∈ active_penalty_ids (users_active_json st) uid)
    ∧ (∀ r, NoDup (ids (penalties_json st)) ->
            r ∈ penalties_json st -> penalty_id (row r) = pid ->
            (user_id (row r) ≠ "" ->
             NoDup (active_penalty_ids (users_active_json st) (user_id (row r))) ->
             pid ∉ active_penalty_ids (users_active_json st') (user_id (row r)))
            ∧ (user_id (row r) = "" -> users_active_json st' = users_active_json st)).
Proof.
  eexists. split; [apply utils_delete_penalty_run|]. simpl.
  split; [done|]. split; [|split].
  - intros Hpid. rewrite find_target_absent, filter_other_absent by done.
    apply state_eta.
  - intros uid x Hne. destruct (find_target pid (penalties_json st)) as [uid0|]; [|done].
    case_bool_decide; [done|]. by apply unlink_membership.
  - intros r Hnd Hr Hid.
    rewrite (find_target_unique pid _ r) by done. split.
    + intros Hu Hlist. rewrite bool_decide_eq_false_2 by done. by apply unlink_removed.
    + intros Hu. by rewrite bool_decide_eq_true_2.
Qed.

Lemma utils_delete_penalty_removes_and_unlinks_witness :
  let e1 := mkPenalty "" review_ban minor "Spam" None "e1" "adm1"
              "2021-07-30T01:02:03.000001" None active in
  let nameless := mkState [dict e1] [mkUser "" (Some ["e1"])] in
  (∃ st',
    delete_penalty "p1" Demo.st_odd = (Returns tt, st')
    ∧ penalties_json st' = [dict Demo.odd]
    ∧ ("p1" ∉ active_penalty_ids (users_active_json st') "u1")
    ∧ "p0" ∈ active_penalty_ids (users_active_json st') "u1")
  ∧ ∃ st',
      delete_penalty "e1" nameless = (Returns tt, st')
      ∧ penalties_json st' = []
      ∧ users_active_json st' = [mkUser "" (Some ["e1"])].
Proof.
  intros e1 nameless. split; [|
    destruct (utils_delete_penalty_removes_and_unlinks "e1" nameless)
      as (st' & Hrun & Hrows & _ & _ & Hsubject);
    exists st'; split; [done|]; split; [by rewrite Hrows|];
    apply (Hsubject (dict e1)); [apply NoDup_singleton|by left|done|done]].
  destruct (utils_delete_penalty_removes_and_unlinks "p1" Demo.st_odd)
    as (st' & Hrun & Hrows & _ & Hrest & Hout).
  exists st'. split; [done|]. split; [rewrite Hrows; by vm_compute|]. split.
  - apply (Hout (dict Demo.p1)); [|by right; left|done|by vm_compute|].
    + apply (bool_decide_unpack _). by vm_compute.
    + apply (bool_decide_unpack _). by vm_compute.
  - apply Hrest; [by vm_compute|]. apply (bool_decide_unpack _). by vm_compute.
Defined.

(** X5. For an administrator the delete endpoint answers 404, leaving the
    state as it is, exactly when no row carries the identifier; otherwise
    it answers with its message and the store keeps, in order, the rows of
    the other identifiers. *)
Theorem router_delete_404_iff_unknown (pid : string) (cu : CurrentUser) (st : State) :
  cu_role cu = "administrator" ->
  (pid ∉ ids (penalties_json st)
   ↔ Router.delete_penalty pid cu st
     = (Raises (HTTPException 404 "Penalty not found"), st))
  ∧ (pid ∈ ids (penalties_json st)
     ↔ Router.delete_penalty pid cu st
       = (Returns ("Penalty " +:+ pid +:+ " deleted successfully."),
          mkState (filter (fun p => penalty_id (row p) ≠ pid) (penalties_json st))
                  (users_active_json st))).
Proof.
  intros Hrole.
  assert (Hknown : pid ∈ ids (penalties_json st) ->
            Router.delete_penalty pid cu st
            = (Returns ("Penalty " +:+ pid +:+ " deleted successfully."),
               mkState (filter (fun p => penalty_id (row p) ≠ pid) (penalties_json st))
                       (users_active_json st))).
  { intros Hpid. unfold Router.delete_penalty.
    rewrite bool_decide_eq_false_2 by (by intros ?).
    unfold mbind, M_bind, _load_penalties, _save_penalties.
    rewrite bool_decide_eq_false_2; [done|].
    pose proof (filter_other_shorter pid _ Hpid). lia. }
  split; split.
  - intros Hpid. by apply router_delete_unknown.
  - intros Hrun Hpid. rewrite (Hknown Hpid) in Hrun. discriminate Hrun.
  - exact Hknown.
  - intros Hrun. destruct (decide (pid ∈ ids (penalties_json st))) as [|Hpid]; [done|].
    rewrite router_delete_unknown in Hrun by done. discriminate Hrun.
Qed.

Lemma router_delete_404_iff_unknown_witness :
  Router.delete_penalty "no-such-id" Demo.admin Demo.st_odd
    = (Raises (HTTPException 404 "Penalty not found"), Demo.st_odd)
  ∧ Router.delete_penalty "p0" Demo.admin Demo.st_odd
    = (Returns "Penalty p0 deleted successfully.",
       mkState [dict Demo.p1] [mkUser "u1" (Some ["p0"; "p1"])]).
Proof.
  split.
  - apply (router_delete_404_iff_unknown "no-such-id" Demo.admin Demo.st_odd); [done|].
    apply (bool_decide_unpack _). by vm_compute.
  - destruct (router_delete_404_iff_unknown "p0" Demo.admin Demo.st_odd) as [_ [Hrun _]];
      [done|].
    rewrite Hrun; [by vm_compute|]. apply (bool_decide_unpack _). by vm_compute.
Defined.

Lemma expire_row_cases due r :
  expire_row due r = r ∨ expire_row due r = row_set_status expired r.
Proof. unfold expire_row. case_bool_decide; [by right|by left]. Qed.

Lemma lapse_cases fromisoformat now p :
  lapse fromisoformat now p = p
  ∨ (status p = active ∧ lapse fromisoformat now p = set_status expired p).
Proof.
  unfold lapse, is_due. case_bool_decide as Hs; simpl; [|by left].
  destruct (has_expired fromisoformat now p) as [[|]|e]; [by right|by left|by left].
Qed.

(** X6. [get_penalties_for_user] never raises and changes statuses only:
    the store keeps its rows in order, each one as it was or with status
    [expired]; the list returned is, in stored order, the subject's
    penalties, each as stored or, if it was active, expired; and no list
    of linked identifiers gains an identifier. *)
Theorem reads_change_status_only
    (fromisoformat : string -> outcome Time.parsed) (now : Z) (uid : string) (st : State) :
  ∃ l st',
    get_penalties_for_user fromisoformat now uid st = (Returns l, st')
    ∧ Forall2 (fun r r' => r' = r ∨ r' = row_set_status expired r)
        (penalties_json st) (penalties_json st')
    ∧ Forall2 (fun p q => q = p ∨ (status p = active ∧ q = set_status expired p))
        (row <$> rows_of uid (penalties_json st)) l
    ∧ (∀ uid' x, x ∈ active_penalty_ids (users_active_json st') uid' ->
                 x ∈ active_penalty_ids (users_active_json st) uid').
Proof.
  do 2 eexists. split; [apply get_penalties_for_user_run|]. simpl.
  split; [|split].
  - rewrite settle_rows_map. apply Forall2_fmap_r, Forall_Forall2_diag, Forall_forall.
    intros r _. apply expire_row_cases.
  - apply Forall2_fmap_r, Forall_Forall2_diag, Forall_forall.
    intros p _. apply lapse_cases.
  - intros uid' x. destruct (decide (uid' = uid)) as [->|Hne].
    + rewrite (settle_users_active _ _ uid) by apply rows_of_subject.
      apply drop_due_subseteq.
    + by rewrite (settle_users_other _ _ uid) by (try apply rows_of_subject; done).
Qed.

(** X7. A stored penalty that is resolved or expired, among rows with
    distinct identifiers, is stored unchanged, resolution data included,
    after any sequence of [get_penalties_for_user] calls. *)
Theorem reads_leave_settled_rows
    (fromisoformat : string -> outcome Time.parsed) (st : State) (r : Row)
    (calls : list (Z * string)) :
  NoDup (ids (penalties_json st)) -> r ∈ penalties_json st ->
  status (row r) ≠ active ->
  r ∈ penalties_json (after_reads fromisoformat calls st).
Proof.
  intros Hnd Hr Hs. apply never_due_stays; [done|done|].
  intros now. unfold is_due. by rewrite bool_decide_eq_false_2.
Qed.

Lemma reads_leave_settled_rows_witness :
  let lifted := mkRow (set_notes (Some "lifted") (set_status resolved Demo.p1))
                      (Some "mod1") (Some "2021-08-01T00:00:00") in
  lifted ∈ penalties_json
    (after_reads Iso.fromisoformat [(Demo.t_later, "u1"); (Demo.t_later + 1, "u1")]
       (mkState [dict Demo.odd; lifted] [mkUser "u1" (Some ["p0"])])).
Proof.
  intros lifted. apply reads_leave_settled_rows.
  - apply (bool_decide_unpack _). by vm_compute.
  - right. by left.
  - done.
Defined.

Lemma is_due_parsed fromisoformat now p s T :
  status p = active -> expires_at p = Some s -> s ≠ "" ->
  fromisoformat s = Returns (Time.Naive T) ->
  is_due fromisoformat now p = (T <? now).
Proof.
  intros Hs He Hne Hparse. unfold is_due, has_expired, has_expired_try.
  rewrite Hs, He, Hparse. rewrite bool_decide_eq_true_2 by done.
  by rewrite bool_decide_eq_false_2 by done.
Qed.

Lemma is_due_no_expiry fromisoformat now p :
  expires_at p = None -> is_due fromisoformat now p = false.
Proof. intros He. apply unparseable_not_due. by rewrite He. Qed.

(** The state an issuance leaves, and the reading of the subject's
    penalties in it. *)
Lemma issued_then_read isoformat fromisoformat now stamp uuid payload cu st p st1 t :
  Router.issue_penalty isoformat now stamp uuid payload cu st = (Returns p, st1) ->
  penalties_json st1 = penalties_json st ++ [dict p]
  ∧ penalty_id p = uuid ∧ status p = active
  ∧ ∃ l st2,
      get_penalties_for_user fromisoformat t (user_id p) st1 = (Returns l, st2)
      ∧ lapse fromisoformat t p ∈ l
      ∧ ∀ later,
          check_active_penalty fromisoformat t later (user_id p) [type_str (type p)] st1
          = (blocked_loop fromisoformat later [type_str (type p)] l, st2).
Proof.
  intros (-> & Hid & Hact & Hu)%issue_penalty_returns.
  rewrite add_penalty_run. simpl. split; [done|]. split; [done|]. split; [done|].
  do 2 eexists. split; [apply get_penalties_for_user_run|]. simpl. split.
  - apply list_elem_of_fmap_2, (list_elem_of_fmap_2 row _ (dict p)).
    apply list_elem_of_filter. split; [done|]. apply elem_of_app. right. by left.
  - intros later. rewrite check_active_penalty_run. by rewrite get_penalties_for_user_run.
Qed.

(** X8. A penalty just issued is returned by a read for its subject: as
    issued, status [active], when it has no expiry or the read is made no
    later than the time [fromisoformat] reads from its [expires_at]; with
    status [expired] when the read is made later. *)
Theorem issued_penalty_active_until_expiry
    (isoformat : Z -> string) (fromisoformat : string -> outcome Time.parsed)
    (now stamp : Z) (uuid : string) (payload : PenaltyCreate) (cu : CurrentUser)
    (st st1 : State) (p : Penalty) (t : Z) :
  Router.issue_penalty isoformat now stamp uuid payload cu st = (Returns p, st1) ->
  ∃ l st2,
    get_penalties_for_user fromisoformat t (user_id p) st1 = (Returns l, st2)
    ∧ (expires_at p = None -> p ∈ l)
    ∧ (∀ s T, expires_at p = Some s -> s ≠ "" ->
              fromisoformat s = Returns (Time.Naive T) ->
              (t <= T -> p ∈ l) ∧ (T < t -> set_status expired p ∈ l)).
Proof.
  intros Hrun.
  destruct (issued_then_read isoformat fromisoformat now stamp uuid payload cu st p st1 t Hrun)
    as (_ & _ & Hact & l & st2 & Hread & Hin & _).
  exists l, st2. split; [done|]. unfold lapse in Hin. split.
  - intros He. by rewrite is_due_no_expiry in Hin.
  - intros s T He Hne Hparse. rewrite (is_due_parsed _ _ _ s T) in Hin by done.
    split; intros Ht.
    + by destruct (Z.ltb_spec T t); [lia|].
    + by destruct (Z.ltb_spec T t); [|lia].
Qed.

Lemma issued_penalty_active_until_expiry_witness :
  let three_days := Demo.t_issue + 3 * Time.us_per_day in
  (∃ l st2, get_penalties_for_user Iso.fromisoformat three_days "u1" Demo.st1
            = (Returns l, st2) ∧ Demo.p1 ∈ l)
  ∧ (∃ l st2, get_penalties_for_user Iso.fromisoformat (three_days + 1) "u1" Demo.st1
              = (Returns l, st2) ∧ set_status expired Demo.p1 ∈ l).
Proof.
  intros three_days.
  assert (Hissue : Router.issue_penalty Iso.isoformat Demo.t_issue Demo.t_issue "p1" Demo.spam
                     Demo.admin Demo.st0 = (Returns Demo.p1, Demo.st1)) by (by vm_compute).
  assert (Hparse : Iso.fromisoformat "2021-08-02T01:02:03.000001"
                   = Returns (Time.Naive three_days)) by (by vm_compute).
  split.
  - destruct (issued_penalty_active_until_expiry Iso.isoformat Iso.fromisoformat
                Demo.t_issue Demo.t_issue "p1" Demo.spam Demo.admin Demo.st0 Demo.st1 Demo.p1
                three_days Hissue) as (l & st2 & Hread & _ & Hdated).
    exists l, st2. split; [exact Hread|].
    apply (Hdated "2021-08-02T01:02:03.000001" three_days); [done|done|exact Hparse|lia].
  - destruct (issued_penalty_active_until_expiry Iso.isoformat Iso.fromisoformat
                Demo.t_issue Demo.t_issue "p1" Demo.spam Demo.admin Demo.st0 Demo.st1 Demo.p1
                (three_days + 1) Hissue) as (l & st2 & Hread & _ & Hdated).
    exists l, st2. split; [exact Hread|].
    apply (Hdated "2021-08-02T01:02:03.000001" three_days); [done|done|exact Hparse|lia].
Defined.

Lemma blocked_loop_none fromisoformat now blocked_types l :
  Forall (fun q => ¬ (status q = active ∧ type_str (type q) ∈ blocked_types)) l ->
  blocked_loop fromisoformat now blocked_types l = Returns None.
Proof.
  intros Hall.
  destruct (blocked_loop_first fromisoformat now blocked_types l)
    as [[Hr _]|(l1 & p & l2 & tr & Hl & _ & Hp & _)]; [done|].
  rewrite Forall_forall in Hall. destruct (Hall p); [|done].
  rewrite Hl. apply elem_of_app. right. by left.
Qed.

Lemma blocked_loop_some fromisoformat now blocked_types l p :
  p ∈ l -> status p = active -> type_str (type p) ∈ blocked_types ->
  ∃ msg, blocked_loop fromisoformat now blocked_types l = Returns (Some msg) ∧ msg ≠ "".
Proof.
  intros Hin Hs Ht.
  destruct (blocked_loop_first fromisoformat now blocked_types l)
    as [[_ Hall]|(l1 & q & l2 & tr & _ & _ & _ & _ & Hr)].
  - rewrite Forall_forall in Hall. by destruct (Hall p Hin).
  - eexists. split; [exact Hr|apply blocked_message_nonempty].
Qed.

(** X9. A penalty just issued blocks its subject: [check_active_penalty]
    for a list of types that holds its type returns a non-empty message,
    when the penalty has no expiry or the check reads the clock, for
    [get_penalties_for_user], no later than the time [fromisoformat]
    reads from its [expires_at]; whatever the later reading that
    [time_remaining] takes for the message. *)
Theorem issued_penalty_blocks_until_expiry
    (isoformat : Z -> string) (fromisoformat : string -> outcome Time.parsed)
    (now stamp : Z) (uuid : string) (payload : PenaltyCreate) (cu : CurrentUser)
    (st st1 : State) (p : Penalty) (t later : Z) (blocked_types : list string) :
  Router.issue_penalty isoformat now stamp uuid payload cu st = (Returns p, st1) ->
  type_str (type p) ∈ blocked_types ->
  (expires_at p = None
   ∨ ∃ s T, expires_at p = Some s ∧ s ≠ ""
            ∧ fromisoformat s = Returns (Time.Naive T) ∧ t <= T) ->
  ∃ msg st2,
    check_active_penalty fromisoformat t later (user_id p) blocked_types st1
      = (Returns (Some msg), st2)
    ∧ msg ≠ "".
Proof.
  intros Hrun Hty Hfresh.
  destruct (issued_then_read isoformat fromisoformat now stamp uuid payload cu st p st1 t Hrun)
    as (_ & _ & Hact & l & st2 & Hread & Hin & _).
  assert (Hp : lapse fromisoformat t p = p).
  { apply lapse_idle. destruct Hfresh as [He|(s & T & He & Hne & Hparse & Ht)].
    - by apply is_due_no_expiry.
    - rewrite (is_due_parsed _ _ _ s T) by done. by destruct (Z.ltb_spec T t); [lia|]. }
  rewrite Hp in Hin.
  destruct (blocked_loop_some fromisoformat later blocked_types l p Hin Hact Hty)
    as (msg & Hmsg & Hne).
  exists msg, st2. split; [|done].
  rewrite check_active_penalty_run. rewrite get_penalties_for_user_run in Hread.
  injection Hread as Hl Hst. by rewrite Hl, get_penalties_for_user_run, Hmsg, <- Hst.
Qed.

Lemma issued_penalty_blocks_until_expiry_witness :
  ∃ msg st2,
    check_active_penalty Iso.fromisoformat (Demo.t_issue + 3 * Time.us_per_day)
      (Demo.t_issue + 3 * Time.us_per_day + 40) "u1"
      ["posting_ban"; "review_ban"] Demo.st1 = (Returns (Some msg), st2)
    ∧ msg ≠ "".
Proof.
  apply (issued_penalty_blocks_until_expiry Iso.isoformat Iso.fromisoformat
           Demo.t_issue Demo.t_issue "p1" Demo.spam Demo.admin Demo.st0 Demo.st1 Demo.p1).
  - by vm_compute.
  - right. by left.
  - right. exists "2021-08-02T01:02:03.000001", (Demo.t_issue + 3 * Time.us_per_day).
    split; [done|]. split; [done|]. split; [by vm_compute|lia].
Defined.

Lemma resolve_penalty_rows isoformat now pid moderator_id notes st :
  NoDup (ids (penalties_json st)) ->
  penalties_json (snd (resolve_penalty isoformat now pid moderator_id notes st))
  = (fun x => if decide (penalty_id (row x) = pid)
              then resolve_row moderator_id notes (isoformat now) x else x)
    <$> penalties_json st.
Proof.
  intros Hnd. rewrite <- (resolve_loop_map pid moderator_id notes (isoformat now)) by done.
  unfold resolve_penalty, mbind, M_bind, _load_penalties, _save_penalties.
  destruct (resolve_loop pid moderator_id notes (isoformat now) (penalties_json st))
    as [data' [uid|]]; simpl; [|done].
  destruct (bool_decide (uid = "")); simpl; [done|]. by rewrite unlink_run.
Qed.

(** X10. Resolving lifts the restriction: when the only stored penalty of
    the subject that is active and of a blocked type is the one resolved
    (identifiers distinct), [check_active_penalty] made afterwards,
    whatever its clock readings, returns [None]. *)
Theorem resolved_penalty_no_longer_blocks
    (isoformat : Z -> string) (fromisoformat : string -> outcome Time.parsed)
    (now t later : Z) (pid moderator_id uid : string) (notes : option string)
    (blocked_types : list string) (st : State) :
  NoDup (ids (penalties_json st)) ->
  (∀ x, x ∈ penalties_json st -> user_id (row x) = uid -> status (row x) = active ->
        type_str (type (row x)) ∈ blocked_types -> penalty_id (row x) = pid) ->
  fst (check_active_penalty fromisoformat t later uid blocked_types
         (snd (resolve_penalty isoformat now pid moderator_id notes st)))
  = Returns None.
Proof.
  intros Hnd Honly. rewrite check_active_penalty_run. simpl.
  rewrite resolve_penalty_rows by done.
  apply blocked_loop_none, Forall_forall.
  intros q (p & -> & (r' & -> & [Hu (x & -> & Hx)%list_elem_of_fmap_1
                                  ]%list_elem_of_filter)%list_elem_of_fmap_1
           )%list_elem_of_fmap_1 [Hs Hty].
  destruct (decide (penalty_id (row x) = pid)) as [Hid|Hid].
  - destruct (lapse_cases fromisoformat t (row (resolve_row moderator_id notes
                (isoformat now) x))) as [Hl|[Hact _]]; [|done].
    by rewrite Hl in Hs.
  - apply Hid, Honly; [done|done| |].
    + destruct (lapse_cases fromisoformat t (row x)) as [Hl|[Hact _]]; [|done].
      by rewrite Hl in Hs.
    + destruct (lapse_cases fromisoformat t (row x)) as [Hl|[_ Hl]];
        by rewrite Hl in Hty.
Qed.

Lemma resolved_penalty_no_longer_blocks_witness :
  (∃ msg, fst (check_active_penalty Iso.fromisoformat Demo.t_issue (Demo.t_issue + 40)
                 "u1" ["review_ban"] Demo.st_odd) = Returns (Some msg))
  ∧ fst (check_active_penalty Iso.fromisoformat Demo.t_issue (Demo.t_issue + 40)
           "u1" ["review_ban"]
           (snd (resolve_penalty Iso.isoformat Demo.t_issue "p1" "mod1" None Demo.st_odd)))
    = Returns None.
Proof.
  split; [eexists; by vm_compute|].
  apply resolved_penalty_no_longer_blocks.
  - apply (bool_decide_unpack _). by vm_compute.
  - intros x [->|[->|Hx%elem_of_nil]%elem_of_cons]%elem_of_cons _ _ Hty; [|done|done].
    apply list_elem_of_singleton in Hty. discriminate Hty.
Defined.

Lemma string_length_app (a b : string) :
  String.length (a +:+ b) = (String.length a + String.length b)%nat.
Proof. induction a as [|c a IH]; simpl; [done|by rewrite IH]. Qed.

Lemma remaining_text_not_expired (a b : string) :
  (7 < String.length b)%nat -> a +:+ b ≠ "Expired".
Proof.
  intros Hb H%(f_equal String.length). rewrite string_length_app in H.
  simpl in H. lia.
Qed.

Lemma time_remaining_parsed fromisoformat now p s T :
  expires_at p = Some s -> s ≠ "" -> fromisoformat s = Returns (Time.Naive T) ->
  (T <= now -> time_remaining fromisoformat now p = Returns (Some "Expired"))
  ∧ (now < T -> ∃ text, time_remaining fromisoformat now p = Returns (Some text)
                        ∧ text ≠ "Expired").
Proof.
  intros He Hne Hparse. unfold time_remaining, time_remaining_try.
  rewrite He, bool_decide_eq_false_2, Hparse by done. simpl. split; intros HT.
  - by destruct (Z.leb_spec (T - now) 0); [|lia].
  - destruct (Z.leb_spec (T - now) 0); [lia|].
    repeat case_match; eexists; (split; [reflexivity|]);
      apply remaining_text_not_expired; rewrite ?string_length_app; simpl; lia.
Qed.

Lemma time_remaining_none fromisoformat now p :
  time_remaining fromisoformat now p = Returns None
  ↔ ¬ ∃ s T, expires_at p = Some s ∧ s ≠ "" ∧ fromisoformat s = Returns (Time.Naive T).
Proof.
  split.
  - intros Hnone (s & T & He & Hne & Hparse).
    destruct (time_remaining_parsed fromisoformat now p s T He Hne Hparse) as [Hle Hlt].
    destruct (Z.le_gt_cases T now) as [H|H].
    + rewrite (Hle H) in Hnone. discriminate Hnone.
    + destruct (Hlt ltac:(lia)) as (text & Htext & _). rewrite Htext in Hnone.
      discriminate Hnone.
  - intros Hno. unfold time_remaining, time_remaining_try.
    destruct (expires_at p) as [s|]; [|done]. case_bool_decide as Hs; [done|].
    destruct (fromisoformat s) as [[T|T off]|e] eqn:Hparse; simpl; [|done|done].
    destruct Hno. by exists s, T.
Qed.

(** X11. [time_remaining] against [has_expired], for every penalty and
    clock reading: a penalty that [has_expired] reports lapsed reads
    ["Expired"]; one that reads ["Expired"] is reported lapsed or expires
    at exactly the clock reading (where [has_expired] still answers
    [False]); and [time_remaining] is [None] exactly when [expires_at] is
    absent, empty, or not read as a naive date by [fromisoformat], the
    cases in which [has_expired] answers [False] at every time. *)
Theorem time_remaining_against_has_expired
    (fromisoformat : string -> outcome Time.parsed) (now : Z) (p : Penalty) :
  (has_expired fromisoformat now p = Returns true ->
   time_remaining fromisoformat now p = Returns (Some "Expired"))
  ∧ (time_remaining fromisoformat now p = Returns (Some "Expired") ->
     has_expired fromisoformat now p = Returns true
     ∨ (has_expired fromisoformat now p = Returns false
        ∧ ∃ s, expires_at p = Some s ∧ fromisoformat s = Returns (Time.Naive now)))
  ∧ (time_remaining fromisoformat now p = Returns None ->
     ∀ t, has_expired fromisoformat t p = Returns false)
  ∧ (time_remaining fromisoformat now p = Returns None
     ↔ ¬ ∃ s T, expires_at p = Some s ∧ s ≠ ""
                ∧ fromisoformat s = Returns (Time.Naive T)).
Proof.
  assert (Hcases : (∃ s T, expires_at p = Some s ∧ s ≠ ""
                           ∧ fromisoformat s = Returns (Time.Naive T))
                   ∨ (time_remaining fromisoformat now p = Returns None
                      ∧ ∀ t, has_expired fromisoformat t p = Returns false)).
  { unfold time_remaining, time_remaining_try, has_expired, has_expired_try.
    destruct (expires_at p) as [s|]; [|by right].
    destruct (decide (s = "")) as [->|Hs]; [by right|].
    destruct (fromisoformat s) as [[T|T off]|e] eqn:Hparse.
    - left. by exists s, T.
    - right. rewrite bool_decide_eq_false_2 by done. by split.
    - right. rewrite bool_decide_eq_false_2 by done. by split. }
  assert (Hdue : ∀ s T, expires_at p = Some s -> s ≠ "" ->
                        fromisoformat s = Returns (Time.Naive T) ->
                        has_expired fromisoformat now p = Returns (T <? now)).
  { intros s T He Hs Hparse. unfold has_expired, has_expired_try.
    by rewrite He, bool_decide_eq_false_2, Hparse. }
  split; [|split; [|split]].
  - intros Hexp. destruct Hcases as [(s & T & He & Hs & Hparse)|[_ Hnever]].
    + rewrite (Hdue s T) in Hexp by done.
      apply (time_remaining_parsed fromisoformat now p s T); [done..|].
      injection Hexp as Hlt. apply Z.ltb_lt in Hlt. lia.
    + rewrite Hnever in Hexp. discriminate Hexp.
  - intros Htext. destruct Hcases as [(s & T & He & Hs & Hparse)|[Hnone _]].
    + rewrite (Hdue s T) by done.
      destruct (time_remaining_parsed fromisoformat now p s T He Hs Hparse) as [_ Hlt].
      destruct (Z.ltb_spec T now) as [H|H]; [by left|right].
      split; [done|]. exists s. split; [done|].
      destruct (decide (T = now)) as [->|Hneq]; [done|].
      destruct (Hlt ltac:(lia)) as (text & Ht & Hne). rewrite Ht in Htext.
      by injection Htext.
    + rewrite Hnone in Htext. discriminate Htext.
  - intros Hnone%time_remaining_none. by destruct Hcases as [Hsome|[_ Hnever]].
  - apply time_remaining_none.
Qed.

Lemma expired_text_boundary fromisoformat now later p :
  time_remaining fromisoformat later p = Returns (Some "Expired") ->
  has_expired fromisoformat now p = Returns false ->
  ∃ s T, expires_at p = Some s ∧ fromisoformat s = Returns (Time.Naive T)
         ∧ now <= T <= later.
Proof.
  unfold time_remaining, time_remaining_try, has_expired, has_expired_try.
  destruct (expires_at p) as [s|]; [|done]. case_bool_decide as Hs; [done|].
  destruct (fromisoformat s) as [[T|T off]|e] eqn:Hparse; simpl; [|done|done].
  intros Htext Hlt. exists s, T. split; [done|]. split; [done|].
  injection Hlt as Hlt%Z.ltb_ge.
  destruct (Z.leb_spec (T - later) 0) as [Hle|Hgt]; [lia|].
  exfalso. revert Htext. repeat case_match; intros [=Htext]; revert Htext;
    apply remaining_text_not_expired; rewrite ?string_length_app; simpl; lia.
Qed.

(** X12. A restriction is never built from a penalty found lapsed: when
    [check_active_penalty] returns a message, the message is built from a
    stored penalty of the subject that is active, of a blocked type, and
    that [has_expired] does not report lapsed at the clock reading of
    [get_penalties_for_user]; the time left is what [time_remaining]
    quotes at its own, later reading, and it is ["Expired"] only when
    the penalty's expiry lies between the two readings, ends included. *)
Theorem restriction_comes_from_unexpired_penalty
    (fromisoformat : string -> outcome Time.parsed)
    (now later : Z) (uid : string) (blocked_types : list string) (st : State)
    (msg : string) :
  fst (check_active_penalty fromisoformat now later uid blocked_types st)
  = Returns (Some msg) ->
  ∃ x tr,
    x ∈ penalties_json st
    ∧ user_id (row x) = uid ∧ status (row x) = active
    ∧ type_str (type (row x)) ∈ blocked_types
    ∧ has_expired fromisoformat now (row x) = Returns false
    ∧ time_remaining fromisoformat later (row x) = Returns tr
    ∧ msg = blocked_message (row x) (remaining_or_unknown tr)
    ∧ (tr = Some "Expired" ->
       ∃ s T, expires_at (row x) = Some s
              ∧ fromisoformat s = Returns (Time.Naive T) ∧ now <= T <= later).
Proof.
  rewrite check_active_penalty_run. simpl. intros Hmsg.
  destruct (blocked_loop_first fromisoformat later blocked_types
              (lapse fromisoformat now <$> (row <$> rows_of uid (penalties_json st))))
    as [[Hr _]|(l1 & p & l2 & tr & Hl & _ & [Hact Hty] & Htr & Hr)].
  { rewrite Hr in Hmsg. discriminate Hmsg. }
  rewrite Hr in Hmsg. injection Hmsg as <-.
  assert (Hin : p ∈ lapse fromisoformat now <$> (row <$> rows_of uid (penalties_json st))).
  { rewrite Hl. apply elem_of_app. right. by left. }
  apply list_elem_of_fmap_1 in Hin as (q & -> & (x & -> & [Hu Hx]%list_elem_of_filter
                                                  )%list_elem_of_fmap_1).
  unfold lapse in Hact, Hty, Htr |- *.
  destruct (is_due fromisoformat now (row x)) eqn:Hdue; [done|].
  assert (Hfresh : has_expired fromisoformat now (row x) = Returns false).
  { destruct (has_expired_returns fromisoformat now (row x)) as [[|] Hb]; [|done].
    unfold is_due in Hdue. by rewrite Hb, bool_decide_eq_true_2 in Hdue. }
  exists x, tr. repeat (split; [done|]). intros ->.
  by apply (expired_text_boundary fromisoformat now later).
Qed.

Lemma restriction_comes_from_unexpired_penalty_witness :
  let T := Demo.t_issue + 3 * Time.us_per_day in
  ∃ x tr,
    x ∈ penalties_json Demo.st1
    ∧ user_id (row x) = "u1" ∧ status (row x) = active
    ∧ type_str (type (row x)) ∈ ["review_ban"]
    ∧ has_expired Iso.fromisoformat (T - 5) (row x) = Returns false
    ∧ time_remaining Iso.fromisoformat (T + 40) (row x) = Returns tr
    ∧ "Action blocked due to active review_ban (Spam) — Expired."
      = blocked_message (row x) (remaining_or_unknown tr)
    ∧ (tr = Some "Expired" ->
       ∃ s T', expires_at (row x) = Some s
               ∧ Iso.fromisoformat s = Returns (Time.Naive T')
               ∧ T - 5 <= T' <= T + 40).
Proof.
  intros T.
  apply (restriction_comes_from_unexpired_penalty Iso.fromisoformat
           (T - 5) (T + 40) "u1" ["review_ban"] Demo.st1).
  by vm_compute.
Defined.

(** X13. The operations of utils.py keep the two collections in step:
    from a consistent state, after any sequence of issuances (fresh
    identifier, registered subject), reads, resolutions and deletions,
    the state is consistent, and every linked identifier is that of a
    stored penalty of the subject whose status is [active]. *)
Theorem ledger_operations_keep_links_in_step
    (isoformat : Z -> string) (fromisoformat : string -> outcome Time.parsed)
    (st st' : State) :
  consistent st ->
  rtc (ledger_step isoformat fromisoformat) st st' ->
  consistent st'
  ∧ ∀ uid pid, pid ∈ active_penalty_ids (users_active_json st') uid ->
      ∃ r, r ∈ penalties_json st' ∧ penalty_id (row r) = pid
           ∧ user_id (row r) = uid ∧ status (row r) = active.
Proof.
  intros Hc Hsteps.
  pose proof (consistent_ledger_steps isoformat fromisoformat st st' Hc Hsteps) as Hc'.
  split; [done|]. destruct Hc' as (_ & _ & _ & Hiff & Hback).
  intros uid pid Hin. destruct (Hback uid pid Hin) as (r & Hr & Hid & Hu).
  exists r. split; [done|]. split; [done|]. split; [done|].
  apply Hiff; [done|]. by rewrite Hid, Hu.
Qed.

Lemma ledger_operations_keep_links_in_step_witness :
  let st' := snd (resolve_penalty Iso.isoformat Demo.t_later "p1" "mod1" None
                    (snd (get_penalties_for_user Iso.fromisoformat Demo.t_issue "u1"
                            Demo.st1))) in
  consistent st'
  ∧ ∀ uid pid, pid ∈ active_penalty_ids (users_active_json st') uid ->
      ∃ r, r ∈ penalties_json st' ∧ penalty_id (row r) = pid
           ∧ user_id (row r) = uid ∧ status (row r) = active.
Proof.
  apply (ledger_operations_keep_links_in_step Iso.isoformat Iso.fromisoformat Demo.st0).
  - apply consistent_initial. intros uid. unfold active_penalty_ids. simpl.
    by case_bool_decide.
  - eapply rtc_l.
    { apply (step_issue _ _ Demo.t_issue Demo.t_issue "p1" Demo.spam Demo.admin Demo.st0 Demo.p1 Demo.st1).
      - apply not_elem_of_nil.
      - done.
      - exists (mkUser "u1" (Some [])). split; [by left|done].
      - by vm_compute. }
    eapply rtc_l; [apply (step_read _ _ Demo.t_issue "u1")|].
    eapply rtc_l; [apply (step_resolve _ _ Demo.t_later "p1" "mod1" None)|].
    apply rtc_refl.
Defined.

(** X14. What a successful [POST /penalties] does to the two collections:
    the new row is appended after the stored ones and other subjects'
    links are untouched; a subject with a record gets the identifier
    appended to its linked list; the subject is not looked up first, so
    for a subject without a record the directory is left as it was and
    the penalty is stored active and linked nowhere. *)
Theorem issue_links_registered_subject_only
    (isoformat : Z -> string) (now stamp : Z) (uuid : string) (payload : PenaltyCreate)
    (cu : CurrentUser) (st st' : State) (p : Penalty) :
  Router.issue_penalty isoformat now stamp uuid payload cu st = (Returns p, st') ->
  penalties_json st' = penalties_json st ++ [dict p]
  ∧ (∀ uid, uid ≠ user_id p ->
       active_penalty_ids (users_active_json st') uid
       = active_penalty_ids (users_active_json st) uid)
  ∧ (registered (users_active_json st) (user_id p) ->
       active_penalty_ids (users_active_json st') (user_id p)
       = active_penalty_ids (users_active_json st) (user_id p) ++ [penalty_id p])
  ∧ (¬ registered (users_active_json st) (user_id p) ->
       users_active_json st' = users_active_json st
       ∧ status p = active
       ∧ active_penalty_ids (users_active_json st') (user_id p) = []
       ∧ ¬ linked_iff_active st').
Proof.
  intros (-> & Hid & Hact & Hu)%issue_penalty_returns.
  rewrite add_penalty_run. simpl. split; [done|].
  split; [intros uid Hne; by apply active_penalty_ids_link_other|].
  split; [apply active_penalty_ids_link|].
  intros Hnone. rewrite link_users_unregistered by done.
  assert (Hempty : active_penalty_ids (users_active_json st) (user_id p) = []).
  { unfold active_penalty_ids.
    destruct (List.find _ _) as [u|] eqn:Hfind; [|done].
    apply List.find_some in Hfind as [Hin Heq]. destruct Hnone.
    exists u. split; [by apply list_elem_of_In|]. by apply bool_decide_eq_true in Heq. }
  split; [done|]. split; [done|]. split; [done|].
  intros Hiff. unfold linked_iff_active in Hiff. simpl in Hiff.
  specialize (Hiff (dict p)). simpl in Hiff.
  rewrite Hempty in Hiff. apply (not_elem_of_nil (penalty_id p)).
  apply Hiff; [|done]. apply elem_of_app. right. by left.
Qed.

Lemma issue_links_registered_subject_only_witness :
  let ghost := mkPenaltyCreate "nobody" review_ban minor "Spam" None None in
  let p := mkPenalty "nobody" review_ban minor "Spam" None "p9" "adm1"
             "2021-07-30T01:02:03.000001" (Some "2021-08-02T01:02:03.000001") active in
  let st' := mkState [dict Demo.p1; dict p] [mkUser "u1" (Some ["p1"])] in
  Router.issue_penalty Iso.isoformat Demo.t_issue Demo.t_issue "p9" ghost Demo.admin Demo.st1
  = (Returns p, st')
  ∧ penalties_json st' = penalties_json Demo.st1 ++ [dict p]
  ∧ users_active_json st' = users_active_json Demo.st1
  ∧ ¬ linked_iff_active st'.
Proof.
  intros ghost p st'.
  assert (Hrun : Router.issue_penalty Iso.isoformat Demo.t_issue Demo.t_issue "p9" ghost Demo.admin
                   Demo.st1 = (Returns p, st')) by (by vm_compute).
  destruct (issue_links_registered_subject_only Iso.isoformat Demo.t_issue Demo.t_issue "p9" ghost
              Demo.admin Demo.st1 st' p Hrun) as (Hrows & _ & _ & Hghost).
  destruct Hghost as (Husers & _ & _ & Hbroken).
  { intros (u & Hu & Hid). apply list_elem_of_singleton in Hu as ->. discriminate Hid. }
  split; [exact Hrun|]. split; [exact Hrows|]. split; [exact Husers|exact Hbroken].
Defined.

Lemma calculate_expiry_cases isoformat now p_type severity dd :
  let overridden := ∃ d, dd = Some d ∧ 0 < d in
  (calculate_expiry isoformat now p_type severity dd = Returns None
   ∧ p_type = "warning" ∧ ¬ overridden)
  ∨ ∃ d, 0 < d
         ∧ (dd = Some d ∨ (¬ overridden ∧ p_type ≠ "warning" ∧ d ∈ [3; 7; 14; 30]))
         ∧ calculate_expiry isoformat now p_type severity dd
           = obind (Time.plus_days now d) (fun t => Returns (Some (isoformat t))).
Proof.
  intros overridden. unfold calculate_expiry. cbv zeta.
  assert (Hover : overridden ∨ (¬ overridden ∧ ∀ (A : Type) (x : Z -> A) (y : A),
                    match dd with
                    | Some d => if negb (d =? 0) && (0 <? d) then x d else y
                    | None => y
                    end = y)).
  { destruct dd as [d|]; [|right; split; [by intros (d & ? & _)|done]].
    destruct (Z.ltb_spec 0 d) as [Hd|Hd].
    - left. by exists d.
    - right. split; [intros (d' & [= <-] & ?); lia|]. intros A x y.
      by rewrite andb_false_r. }
  destruct Hover as [(d & -> & Hd)|[Hno Hdefault]].
  { right. exists d. split; [done|]. split; [by left|].
    destruct (Z.eqb_spec d 0) as [?|_]; [lia|].
    by destruct (Z.ltb_spec 0 d) as [_|?]; [|lia]. }
  rewrite Hdefault.
  destruct (decide (p_type = "warning")) as [Hw|Hw].
  { left. by rewrite bool_decide_eq_true_2. }
  right. rewrite (bool_decide_eq_false_2 _ Hw).
  assert (Hin : ∀ d : Z, d ∈ [3; 7; 14; 30] ->
                  dd = Some d ∨ (¬ overridden ∧ p_type ≠ "warning" ∧ d ∈ [3; 7; 14; 30]))
    by (intros d Hd; by right).
  repeat case_bool_decide.
  - exists 3. split; [lia|]. split; [apply Hin; set_solver|done].
  - exists 7. split; [lia|]. split; [apply Hin; set_solver|done].
  - exists 30. split; [lia|]. split; [apply Hin; set_solver|done].
  - exists 14. split; [lia|]. split; [apply Hin; set_solver|done].
  - exists 7. split; [lia|]. split; [apply Hin; set_solver|done].
Qed.

Lemma representable_or_not now d : representable now d ∨ ¬ representable now d.
Proof. unfold representable. lia. Qed.

(** X15. The outcomes of [calculate_expiry]: either it returns [None],
    for a warning without a positive [duration_days]; or a positive number
    of days is chosen, the override or one of the defaults 3, 7, 14, 30,
    and it returns the timestamp of the clock reading plus that many
    days, a time still to come, unless Python cannot build that date, in
    which case it raises [OverflowError]. *)
Theorem calculate_expiry_outcomes
    (isoformat : Z -> string) (now : Z) (p_type severity : string) (dd : option Z) :
  let expiry := calculate_expiry isoformat now p_type severity dd in
  let overridden := ∃ d, dd = Some d ∧ 0 < d in
  (expiry = Returns None ∧ p_type = "warning" ∧ ¬ overridden)
  ∨ ∃ d, 0 < d
         ∧ (dd = Some d ∨ (¬ overridden ∧ p_type ≠ "warning" ∧ d ∈ [3; 7; 14; 30]))
         ∧ now < now + d * Time.us_per_day
         ∧ ((representable now d
             ∧ expiry = Returns (Some (isoformat (now + d * Time.us_per_day))))
            ∨ (¬ representable now d ∧ expiry = Raises OverflowError)).
Proof.
  intros expiry overridden. subst expiry.
  destruct (calculate_expiry_cases isoformat now p_type severity dd)
    as [Hnone|(d & Hd & Hchosen & Hrun)]; [by left|right].
  exists d. split; [done|]. split; [done|].
  split; [unfold Time.us_per_day, Time.us_per_second; lia|].
  rewrite Hrun. destruct (representable_or_not now d) as [Hr|Hr]; [left|right].
  - by rewrite plus_days_representable.
  - by rewrite plus_days_overflow.
Qed.

Lemma resolve_loop_elem pid moderator_id notes stamp data r' :
  r' ∈ fst (resolve_loop pid moderator_id notes stamp data) ->
  r' ∈ data ∨ ∃ x, x ∈ data ∧ r' = resolve_row moderator_id notes stamp x.
Proof.
  induction data as [|r data IH]; simpl; [by left|].
  destruct (decide (penalty_id (row r) = pid)) as [Hid|Hid]; simpl.
  - intros [->|Hin]%elem_of_cons.
    + right. exists r. split; [by left|done].
    + left. by right.
  - destruct (resolve_loop pid moderator_id notes stamp data) as [rest target]. simpl in *.
    intros [->|Hin]%elem_of_cons; [left; by left|].
    destruct (IH Hin) as [Hold|(x & Hx & ->)]; [left; by right|].
    right. exists x. split; [by right|done].
Qed.

Lemma resolve_penalty_rows_loop isoformat now pid moderator_id notes st :
  penalties_json (snd (resolve_penalty isoformat now pid moderator_id notes st))
  = fst (resolve_loop pid moderator_id notes (isoformat now) (penalties_json st)).
Proof.
  unfold resolve_penalty, mbind, M_bind, _load_penalties, _save_penalties.
  destruct (resolve_loop pid moderator_id notes (isoformat now) (penalties_json st))
    as [data' [uid|]]; simpl; [|done].
  destruct (bool_decide (uid = "")); simpl; [done|]. by rewrite unlink_run.
Qed.

Lemma issuance_penalty_id p q : issuance p = issuance q -> penalty_id p = penalty_id q.
Proof. unfold issuance. by intros [= _ _ _ _ ? _ _ _]. Qed.

(** One call: a row stored afterwards under [pid] comes from a row
    stored before, with the fields of its issuance, and is that very row
    when it is active. *)
Lemma run_op_descends isoformat fromisoformat op st pid r' :
  (∀ p, op = op_add p -> penalty_id p ≠ pid) ->
  r' ∈ penalties_json (run_op isoformat fromisoformat op st) ->
  penalty_id (row r') = pid ->
  ∃ r, r ∈ penalties_json st ∧ issuance (row r) = issuance (row r')
       ∧ (status (row r') = active -> r' = r).
Proof.
  intros Hfresh Hin Hid.
  destruct op as [p|now uid|now pid' moderator_id notes|pid']; simpl in Hin.
  - rewrite add_penalty_run in Hin. simpl in Hin.
    apply elem_of_app in Hin as [Hin|Hin%list_elem_of_singleton]; [by exists r'|].
    subst r'. by destruct (Hfresh p).
  - rewrite get_penalties_for_user_rows in Hin.
    apply list_elem_of_fmap_1 in Hin as (x & -> & Hx). exists x. split; [done|].
    destruct (expire_row_cases (due_ids fromisoformat now uid (penalties_json st)) x)
      as [Hx'|Hx']; rewrite Hx'; [done|]. by split.
  - rewrite resolve_penalty_rows_loop in Hin.
    apply resolve_loop_elem in Hin as [Hin|(x & Hx & ->)]; [by exists r'|].
    exists x. split; [done|]. by split.
  - rewrite utils_delete_penalty_run in Hin. simpl in Hin.
    apply list_elem_of_filter in Hin as [_ Hin]. by exists r'.
Qed.

(** X16. A penalty is never reactivated and its issuance never rewritten:
    after any sequence of [add_penalty], [get_penalties_for_user],
    [resolve_penalty] and [delete_penalty] calls, none of which adds a
    penalty under the identifier [pid], every row stored under [pid]
    comes from a row stored at the start, with the same subject, type,
    severity, reason, identifier, issuer, issue time and expiry; if it is
    active it is that row unchanged, so a penalty once resolved or
    expired is not active again. *)
Theorem penalty_never_reactivated
    (isoformat : Z -> string) (fromisoformat : string -> outcome Time.parsed)
    (ops : list ledger_op) (st : State) (pid : string) :
  (∀ p, op_add p ∈ ops -> penalty_id p ≠ pid) ->
  ∀ r', r' ∈ penalties_json (run_ops isoformat fromisoformat ops st) ->
        penalty_id (row r') = pid ->
    ∃ r, r ∈ penalties_json st ∧ issuance (row r) = issuance (row r')
         ∧ (status (row r') = active -> r' = r ∧ status (row r) = active).
Proof.
  revert st. induction ops as [|op ops IH]; intros st Hfresh r' Hin Hid.
  { exists r'. split; [done|]. split; [done|]. by split. }
  simpl in Hin.
  destruct (IH (run_op isoformat fromisoformat op st)
              ltac:(intros p Hp; apply Hfresh; by right) r' Hin Hid)
    as (r1 & Hr1 & Hsame1 & Hact1).
  destruct (run_op_descends isoformat fromisoformat op st pid r1
              ltac:(intros p ->; apply Hfresh; by left) Hr1
              ltac:(by rewrite (issuance_penalty_id _ _ Hsame1)))
    as (r & Hr & Hsame & Hact).
  exists r. split; [done|]. split; [by rewrite Hsame|].
  intros Ha. destruct (Hact1 Ha) as [-> Ha1]. destruct (Hact Ha1) as [].
  by split.
Qed.

Lemma penalty_never_reactivated_witness :
  let ops := [op_read Demo.t_later "u1"; op_add Demo.odd;
              op_resolve Demo.t_later "p1" "mod1" (Some "appeal"); op_read Demo.t_issue "u1"] in
  Forall (fun r' => penalty_id (row r') = "p1" ->
            ∃ r, r ∈ penalties_json Demo.st1 ∧ issuance (row r) = issuance (row r')
                 ∧ (status (row r') = active -> r' = r ∧ status (row r) = active))
         (penalties_json (run_ops Iso.isoformat Iso.fromisoformat ops Demo.st1)).
Proof.
  intros ops. apply Forall_forall. intros r'.
  apply (penalty_never_reactivated Iso.isoformat Iso.fromisoformat ops).
  intros p Hin. unfold ops in Hin.
  repeat (apply elem_of_cons in Hin as [Hin|Hin]; [try discriminate Hin|]).
  - by injection Hin as ->.
  - by apply elem_of_nil in Hin.
Defined.

(** * Properties of the report collection *)

Lemma get_report_app rid l1 l2 :
  Reports.get_report rid (l1 ++ l2)
  = match Reports.get_report rid l1 with
    | Some r => Some r
    | None => Reports.get_report rid l2
    end.
Proof.
  induction l1 as [|r l1 IH]; simpl; [by destruct (Reports.get_report rid l2)|].
  by case_decide.
Qed.

Lemma get_report_Some rid l r :
  Reports.get_report rid l = Some r -> r ∈ l ∧ Reports.id r = rid.
Proof.
  induction l as [|x l IH]; simpl; [done|]. case_decide as Hx.
  - intros [= ->]. split; [by left|done].
  - intros [Hin Hid]%IH. split; [by right|done].
Qed.

Lemma get_report_None rid l :
  Reports.get_report rid l = None ↔ rid ∉ Reports.id <$> l.
Proof.
  induction l as [|x l IH].
  - split; [intros _; apply not_elem_of_nil|done].
  - rewrite fmap_cons, not_elem_of_cons. simpl. case_decide as Hx.
    + split; [done|]. by intros [Hne _].
    + rewrite IH. split; [by split|by intros [_ ?]].
Qed.

Lemma filter_length_same {A} (P : A -> Prop) `{∀ x, Decision (P x)} (l : list A) :
  length (filter P l) = length l -> filter P l = l.
Proof.
  induction l as [|x l IH]; [done|]. rewrite filter_cons.
  case_decide as Hx; simpl.
  - intros [= Hl]. by rewrite IH.
  - intros Hl. pose proof (length_filter P l). lia.
Qed.

Lemma filter_keep_all {A} (P : A -> Prop) `{∀ x, Decision (P x)} (l : list A) :
  (∀ x, x ∈ l -> P x) -> filter P l = l.
Proof.
  induction l as [|x l IH]; [done|]. intros Hall. rewrite filter_cons.
  rewrite decide_True by (apply Hall; by left).
  rewrite IH; [done|]. intros y Hy. apply Hall. by right.
Qed.

Lemma filter_other_reports rid (l : list Reports.Report) :
  rid ∉ Reports.id <$> l -> filter (fun r => Reports.id r ≠ rid) l = l.
Proof.
  intros Hout. apply filter_keep_all. intros x Hx Hid. apply Hout.
  rewrite <- Hid. by apply list_elem_of_fmap_2.
Qed.

(** X17. A report just created is pending and carries the identifier
    drawn; it is appended, so looking an identifier up afterwards gives
    what it gave before, and the new report only where nothing was stored
    under that identifier: a report created under an identifier already
    in use is stored but not found by [get_report]. *)
Theorem created_report_found_unless_shadowed
    (isoformat : Z -> string) (now : Z) (uuid reported_item type reason reporter_id : string)
    (reports : list Reports.Report) (rid : string) :
  let created := Reports.create_report isoformat now uuid reported_item type reason
                   reporter_id reports in
  Reports.status (fst created) = Reports.pending
  ∧ Reports.id (fst created) = uuid
  ∧ Reports.reporter_id (fst created) = reporter_id
  ∧ snd created = reports ++ [fst created]
  ∧ Reports.get_report rid (snd created)
    = match Reports.get_report rid reports with
      | Some r => Some r
      | None => if decide (rid = uuid) then Some (fst created) else None
      end
  ∧ (uuid ∉ Reports.id <$> reports ->
     Reports.get_report uuid (snd created) = Some (fst created)
     ∧ Reports.delete_report uuid (snd created) = (true, reports)).
Proof.
  intros created. subst created. unfold Reports.create_report. simpl.
  split; [done|]. split; [done|]. split; [done|]. split; [done|]. split.
  - rewrite get_report_app. destruct (Reports.get_report rid reports); [done|].
    simpl. case_decide as H1; case_decide as H2; congruence.
  - intros Hfresh. split.
    + rewrite get_report_app. apply get_report_None in Hfresh as ->. simpl.
      by rewrite decide_True.
    + unfold Reports.delete_report. rewrite filter_app, filter_cons, filter_nil. simpl.
      rewrite decide_False by (by intros Hne; apply Hne).
      rewrite filter_other_reports, app_nil_r by done.
      rewrite bool_decide_eq_false_2; [done|]. rewrite length_app. simpl. lia.
Qed.

Lemma update_loop_run rid s l :
  match Reports.get_report rid l with
  | None => Reports.update_loop rid s l = None
  | Some r =>
      ∃ l', Reports.update_loop rid s l = Some (Reports.set_status s r, l')
            ∧ Reports.get_report rid l' = Some (Reports.set_status s r)
            ∧ Reports.id <$> l' = Reports.id <$> l
            ∧ (∀ rid', rid' ≠ rid -> Reports.get_report rid' l' = Reports.get_report rid' l)
            ∧ ∃ l1 l2, l = l1 ++ r :: l2 ∧ l' = l1 ++ Reports.set_status s r :: l2
                       ∧ rid ∉ Reports.id <$> l1
  end.
Proof.
  induction l as [|x l IH]; simpl; [done|].
  destruct (decide (Reports.id x = rid)) as [Hx|Hx].
  - eexists. split; [done|]. simpl. rewrite decide_True by done.
    split; [done|]. split; [done|]. split.
    + intros rid' Hne. by rewrite !decide_False by congruence.
    + exists [], l. split; [done|]. split; [done|]. apply not_elem_of_nil.
  - destruct (Reports.get_report rid l) as [r|].
    + destruct IH as (l' & -> & Hget & Hids & Hother & l1 & l2 & -> & -> & Hl1).
      eexists. split; [done|]. cbn [Reports.get_report]. rewrite decide_False by done.
      split; [done|]. split; [by rewrite !fmap_cons, Hids|]. split.
      * intros rid' Hne. case_decide; [done|]. by apply Hother.
      * exists (x :: l1), l2. split; [done|]. split; [done|].
        rewrite fmap_cons. apply not_elem_of_cons. split; [congruence|done].
    + by rewrite IH.
Qed.

(** X18. [update_report_status] rewrites the first report stored under
    the identifier and nothing else: for an identifier not stored it
    returns [None] and leaves the collection as it was; otherwise it
    returns that report with the new status, which is what [get_report]
    then finds, the reports keep their order and identifiers, lookups of
    other identifiers are unchanged, and setting the status again gives
    the same collection. *)
Theorem update_report_status_first_match
    (rid : string) (s : Reports.ReportStatus) (reports : list Reports.Report) :
  let updated := Reports.update_report_status rid s reports in
  (rid ∉ Reports.id <$> reports -> updated = (None, reports))
  ∧ (∀ r, Reports.get_report rid reports = Some r ->
       fst updated = Some (Reports.set_status s r)
       ∧ Reports.get_report rid (snd updated) = Some (Reports.set_status s r)
       ∧ Reports.id <$> snd updated = Reports.id <$> reports
       ∧ (∀ rid', rid' ≠ rid ->
            Reports.get_report rid' (snd updated) = Reports.get_report rid' reports)
       ∧ (∃ l1 l2, reports = l1 ++ r :: l2
                   ∧ snd updated = l1 ++ Reports.set_status s r :: l2
                   ∧ rid ∉ Reports.id <$> l1)
       ∧ Reports.update_report_status rid s (snd updated) = updated).
Proof.
  intros updated. subst updated. unfold Reports.update_report_status.
  pose proof (update_loop_run rid s reports) as Hrun. split.
  - intros Hout%get_report_None. rewrite Hout in Hrun. by rewrite Hrun.
  - intros r Hr. rewrite Hr in Hrun.
    destruct Hrun as (l' & -> & Hget & Hids & Hother & Hsplit). simpl.
    split; [done|]. split; [done|]. split; [done|]. split; [done|]. split; [done|].
    pose proof (update_loop_run rid s l') as Hagain. rewrite Hget in Hagain.
    destruct Hagain as (l'' & -> & _ & _ & _ & k1 & k2 & Hl' & -> & Hk1).
    rewrite Hl'. reflexivity.
Qed.

Lemma get_report_filter_other rid rid' l :
  rid' ≠ rid ->
  Reports.get_report rid' (filter (fun r => Reports.id r ≠ rid) l)
  = Reports.get_report rid' l.
Proof.
  intros Hne. induction l as [|x l IH]; [done|]. rewrite filter_cons.
  destruct (decide (Reports.id x ≠ rid)) as [Hx|Hx]; simpl.
  - by rewrite IH.
  - rewrite IH. rewrite decide_False; [done|].
    intros Hid. apply Hx. congruence.
Qed.

Lemma delete_report_rows rid l :
  snd (Reports.delete_report rid l) = filter (fun r => Reports.id r ≠ rid) l
  ∧ fst (Reports.delete_report rid l) = bool_decide (rid ∈ Reports.id <$> l).
Proof.
  unfold Reports.delete_report. case_bool_decide as Hlen; simpl.
  - rewrite (filter_length_same _ _ Hlen). split; [done|].
    symmetry. apply bool_decide_eq_false_2.
    intros (x & Hid & Hx)%list_elem_of_fmap_1.
    pose proof (length_filter_lt (fun r => Reports.id r ≠ rid) l x Hx) as Hlt.
    assert (length (filter (fun r => Reports.id r ≠ rid) l) < length l)%nat; [|lia].
    apply Hlt. by intros Hne.
  - split; [done|]. symmetry. apply bool_decide_eq_true_2.
    destruct (decide (rid ∈ Reports.id <$> l)) as [|Hout]; [done|].
    destruct Hlen. by rewrite filter_other_reports.
Qed.

(** X19. [delete_report] answers [True] exactly when a report is stored
    under the identifier, and then removes every report stored under it;
    it answers [False] and leaves the collection alone otherwise. After
    it, [get_report] finds nothing under the identifier, finds under any
    other identifier what it found before, and a second deletion answers
    [False]. *)
Theorem delete_report_removes_every_match
    (rid : string) (reports : list Reports.Report) :
  let deleted := Reports.delete_report rid reports in
  (fst deleted = true ↔ rid ∈ Reports.id <$> reports)
  ∧ (fst deleted = false -> snd deleted = reports)
  ∧ snd deleted = filter (fun r => Reports.id r ≠ rid) reports
  ∧ Reports.get_report rid (snd deleted) = None
  ∧ (∀ rid', rid' ≠ rid ->
       Reports.get_report rid' (snd deleted) = Reports.get_report rid' reports)
  ∧ Reports.delete_report rid (snd deleted) = (false, snd deleted).
Proof.
  intros deleted. subst deleted.
  destruct (delete_report_rows rid reports) as [Hrows Hret]. rewrite Hrows, Hret.
  assert (Hgone : rid ∉ Reports.id <$> filter (fun r => Reports.id r ≠ rid) reports).
  { intros (x & Hid & [Hne _]%list_elem_of_filter)%list_elem_of_fmap_1. by apply Hne. }
  split; [apply bool_decide_eq_true|]. split.
  - intros Hout%bool_decide_eq_false. by apply filter_other_reports.
  - split; [done|]. split; [by apply get_report_None|].
    split; [intros rid' Hne; by apply get_report_filter_other|].
    unfold Reports.delete_report.
    by rewrite filter_other_reports, bool_decide_eq_true_2.
Qed.

(** X20. What [time_remaining] quotes for a penalty still to expire is
    the time left rounded down: to the hour, as days and hours, when a
    day or more is left; to the minute, as hours and minutes, when an
    hour or more is left; and to the minute otherwise, so ["0m remaining"]
    in the last minute. *)
Theorem time_remaining_rounds_down
    (fromisoformat : string -> outcome Time.parsed) (now : Z) (p : Penalty)
    (s : string) (T : Z) :
  expires_at p = Some s -> s ≠ "" -> fromisoformat s = Returns (Time.Naive T) ->
  now < T ->
  let minute := 60 * Time.us_per_second in
  let hour := 60 * minute in
  ∃ text, time_remaining fromisoformat now p = Returns (Some text)
    ∧ ((∃ d h, text = pretty d +:+ "d " +:+ pretty h +:+ "h remaining"
               ∧ 0 < d ∧ 0 <= h < 24
               ∧ d * Time.us_per_day + h * hour <= T - now
                 < d * Time.us_per_day + (h + 1) * hour)
       ∨ (∃ h m, text = pretty h +:+ "h " +:+ pretty m +:+ "m remaining"
                 ∧ 0 < h < 24 ∧ 0 <= m < 60
                 ∧ h * hour + m * minute <= T - now < h * hour + (m + 1) * minute)
       ∨ (∃ m, text = pretty m +:+ "m remaining"
               ∧ 0 <= m < 60 ∧ m * minute <= T - now < (m + 1) * minute)).
Proof.
  intros He Hne Hparse HT minute hour. subst minute hour.
  unfold time_remaining, time_remaining_try.
  rewrite He, bool_decide_eq_false_2, Hparse by done. simpl.
  destruct (Z.leb_spec (T - now) 0) as [?|Hpos]; [lia|].
  unfold Time.us_per_day, Time.us_per_second in *.
  set (rem := T - now) in *.
  destruct (Z.ltb_spec 0 (rem `div` (86400 * 1000000))) as [Hd|Hd].
  { eexists. split; [done|]. left. do 2 eexists. split; [done|].
    Z.to_euclidean_division_equations. lia. }
  destruct (Z.ltb_spec 0 (((rem `mod` (86400 * 1000000)) `div` 1000000) `div` 3600))
    as [Hh|Hh].
  { eexists. split; [done|]. right. left. do 2 eexists. split; [done|].
    Z.to_euclidean_division_equations. lia. }
  eexists. split; [done|]. right. right. eexists. split; [done|].
  Z.to_euclidean_division_equations. lia.
Qed.

Lemma time_remaining_rounds_down_witness :
  let now := Demo.t_issue + 1 in
  let T := Demo.t_issue + 3 * Time.us_per_day in
  let minute := 60 * Time.us_per_second in
  let hour := 60 * minute in
  ∃ text, time_remaining Iso.fromisoformat now Demo.p1 = Returns (Some text)
    ∧ ((∃ d h, text = pretty d +:+ "d " +:+ pretty h +:+ "h remaining"
               ∧ 0 < d ∧ 0 <= h < 24
               ∧ d * Time.us_per_day + h * hour <= T - now
                 < d * Time.us_per_day + (h + 1) * hour)
       ∨ (∃ h m, text = pretty h +:+ "h " +:+ pretty m +:+ "m remaining"
                 ∧ 0 < h < 24 ∧ 0 <= m < 60
                 ∧ h * hour + m * minute <= T - now < h * hour + (m + 1) * minute)
       ∨ (∃ m, text = pretty m +:+ "m remaining"
               ∧ 0 <= m < 60 ∧ m * minute <= T - now < (m + 1) * minute)).
Proof.
  apply (time_remaining_rounds_down Iso.fromisoformat (Demo.t_issue + 1) Demo.p1
           "2021-08-02T01:02:03.000001" (Demo.t_issue + 3 * Time.us_per_day)).
  - done.
  - done.
  - by vm_compute.
  - by vm_compute.
Defined.

(** X21. [filter_reports_by_status] follows the two writes: a report just
    created is listed last among the pending ones and the other listings
    are as before; after [update_report_status] sets a stored report to
    [s], that report is listed under [s], everything listed under [s]
    before still is, and a listing under another status gains nothing. *)
Theorem report_listings_follow_writes
    (isoformat : Z -> string) (now : Z) (uuid reported_item type reason reporter_id : string)
    (rid : string) (s : Reports.ReportStatus) (reports : list Reports.Report) :
  let created := Reports.create_report isoformat now uuid reported_item type reason
                   reporter_id reports in
  let updated := Reports.update_report_status rid s reports in
  Reports.filter_reports_by_status Reports.pending (snd created)
  = Reports.filter_reports_by_status Reports.pending reports ++ [fst created]
  ∧ (∀ s', s' ≠ Reports.pending ->
       Reports.filter_reports_by_status s' (snd created)
       = Reports.filter_reports_by_status s' reports)
  ∧ (∀ r, fst updated = Some r -> r ∈ Reports.filter_reports_by_status s (snd updated))
  ∧ (∀ x, x ∈ Reports.filter_reports_by_status s reports ->
          x ∈ Reports.filter_reports_by_status s (snd updated))
  ∧ (∀ s' x, s' ≠ s -> x ∈ Reports.filter_reports_by_status s' (snd updated) ->
             x ∈ Reports.filter_reports_by_status s' reports).
Proof.
  intros created updated. subst created updated.
  unfold Reports.filter_reports_by_status, Reports.create_report. simpl.
  split; [by rewrite filter_app|]. split.
  { intros s' Hs'. rewrite filter_app, filter_cons, filter_nil. simpl.
    rewrite decide_False by done. apply app_nil_r. }
  unfold Reports.update_report_status.
  pose proof (update_loop_run rid s reports) as Hrun.
  destruct (Reports.get_report rid reports) as [r|].
  - destruct Hrun as (l' & -> & _ & _ & _ & l1 & l2 & -> & -> & _). simpl.
    split; [|split].
    + intros r' [= <-]. apply list_elem_of_filter. split; [done|].
      apply elem_of_app. right. by left.
    + intros x [Hs Hx]%list_elem_of_filter. apply list_elem_of_filter. split; [done|].
      apply elem_of_app in Hx as [Hx|[->|Hx]%elem_of_cons]; apply elem_of_app.
      * by left.
      * right. assert (Reports.set_status s r = r) as ->; [|by left].
        destruct r. simpl in Hs. by subst s.
      * right. by right.
    + intros s' x Hs' [Hs Hx]%list_elem_of_filter. apply list_elem_of_filter.
      split; [done|].
      apply elem_of_app in Hx as [Hx|[->|Hx]%elem_of_cons]; apply elem_of_app.
      * by left.
      * by destruct Hs'.
      * right. by right.
  - rewrite Hrun. simpl. split; [done|]. split; [done|]. by intros s' x _.
Qed.
